(** * sessionup-pgstore: the PostgreSQL session store, embedded and verified

    The development follows the [PgStore] code of [postgres.go] (package
    [pgstore]; the file also carries an older variant, package [postgres],
    which is not the subject here):
    - the Go values the store handles ([Session], [sql.NullString], errors);
    - the store's operations, written against the [database/sql] handle they
      call, with the SQL text they build;
    - a reference model of the PostgreSQL statements that text denotes;
    - the cleanup goroutine as a transition system;
    - the properties of the specification. *)

From Stdlib Require Import ZArith Ascii String List Bool Lia.
From stdpp Require Import gmap strings list.

Local Open Scope Z_scope.

(** ** Go runtime pieces used by the store *)

(** [fmt.Sprintf] restricted to what the store uses: a format whose only
    verb is [%s], with a single argument. *)
Fixpoint Sprintf (format : string) (a : string) : string :=
  match format with
  | EmptyString => EmptyString
  | String "%" (String "s" rest) => a +:+ Sprintf rest a
  | String c rest => String c (Sprintf rest a)
  end.

(** [time.Time] as an instant on the integer line, [time.Duration] as a
    signed count of nanoseconds. *)
Definition Time := Z.
Definition Duration := Z.

Module net.

(** [net.IP] is a byte slice; bytes are numbers below 256. *)
Definition IP := list N.

Definition digit (n : N) : ascii := ascii_of_N (48 + n).

Definition hexdigit (n : N) : ascii :=
  if (n <? 10)%N then ascii_of_N (48 + n) else ascii_of_N (87 + n).

(** Decimal text of a byte. *)
Definition dec (b : N) : string :=
  if (b <? 10)%N then String (digit b) ""
  else if (b <? 100)%N then String (digit (b / 10)) (String (digit (b mod 10)) "")
  else String (digit (b / 100))
         (String (digit ((b / 10) mod 10)) (String (digit (b mod 10)) "")).

(** Hexadecimal text of a 16-bit group, without leading zeros. *)
Definition hex16 (g : N) : string :=
  let d3 := (g / 4096)%N in
  let d2 := ((g / 256) mod 16)%N in
  let d1 := ((g / 16) mod 16)%N in
  let d0 := (g mod 16)%N in
  if (0 <? d3)%N then
    String (hexdigit d3) (String (hexdigit d2) (String (hexdigit d1) (String (hexdigit d0) "")))
  else if (0 <? d2)%N then
    String (hexdigit d2) (String (hexdigit d1) (String (hexdigit d0) ""))
  else if (0 <? d1)%N then
    String (hexdigit d1) (String (hexdigit d0) "")
  else String (hexdigit d0) "".

(** [hexString]: two lower-case digits per byte. *)
Fixpoint hexString (b : list N) : string :=
  match b with
  | [] => ""
  | x :: r => String (hexdigit (x / 16)) (String (hexdigit (x mod 16)) (hexString r))
  end.

Definition dotted (a b c d : N) : string :=
  dec a +:+ "." +:+ dec b +:+ "." +:+ dec c +:+ "." +:+ dec d.

Fixpoint groups (b : list N) : list N :=
  match b with
  | hi :: lo :: r => (hi * 256 + lo)%N :: groups r
  | _ => []
  end.

(** Length of the run of zero groups at the head of [g]. *)
Fixpoint zero_run (g : list N) : nat :=
  match g with
  | 0%N :: r => S (zero_run r)
  | _ => 0%nat
  end.

(** First longest run of zero groups, as (start, length), scanning from
    group [i]; [best] is the longest run seen so far. *)
Fixpoint longest_run (g : list N) (i : nat) (best : nat * nat) : nat * nat :=
  match g with
  | [] => best
  | _ :: r =>
      let n := zero_run g in
      longest_run r (S i) (if (snd best <? n)%nat then (i, n) else best)
  end.

Fixpoint join_groups (g : list N) : string :=
  match g with
  | [] => ""
  | [x] => hex16 x
  | x :: r => hex16 x +:+ ":" +:+ join_groups r
  end.

(** The IPv6 text form: the first longest run of two or more zero groups
    is replaced by a double colon. *)
Definition ipv6 (b : list N) : string :=
  let g := groups b in
  let '(start, len) := longest_run g 0%nat (0%nat, 0%nat) in
  if (len <? 2)%nat then join_groups g
  else join_groups (take start g) +:+ "::" +:+ join_groups (drop (start + len)%nat g).

(** [IP.String]: the textual form of an address. A nil or empty address
    prints as the five characters [<nil>]. *)
Definition String_ (ip : IP) : string :=
  match ip with
  | [] => "<nil>"
  | [a; b; c; d] => dotted a b c d
  | [0%N; 0%N; 0%N; 0%N; 0%N; 0%N; 0%N; 0%N; 0%N; 0%N; 255%N; 255%N; a; b; c; d] =>
      dotted a b c d
  | [_; _; _; _; _; _; _; _; _; _; _; _; _; _; _; _] => ipv6 ip
  | _ => "?" +:+ hexString ip
  end.

End net.

(** ** Values of the host package and of [database/sql] *)

(** [sessionup.Session], with the fields the store reads and writes. *)
Record UserAgent := mkAgent { OS : string; Browser : string }.

Record Session := mkSession {
  CreatedAt : Time;
  ExpiresAt : Time;
  ID : string;
  UserKey : string;
  IP : net.IP;
  Agent : UserAgent
}.

(** The zero value [sessionup.Session{}]. *)
Definition zeroSession : Session :=
  mkSession 0 0 "" "" [] (mkAgent "" "").

(** [sql.NullString]. *)
Record NullString := mkNullString { String_ : string; Valid : bool }.

(** [pq.Error], with the fields that identify a failure. *)
Record pq_Error := mkPqError {
  pq_Code : string;
  pq_Table : string;
  pq_Constraint : string
}.

(** What a call on the database handle can fail with: the sentinel
    [sql.ErrNoRows], a [*pq.Error] of the driver, or any other error
    (connection, cancelled context, conversion). *)
Inductive driver_error :=
| ErrNoRows
| PqError (perr : pq_Error)
| ErrOther (msg : string).

(** The errors the store hands to its caller: the host's sentinel
    [sessionup.ErrDuplicateID], or the handle's error as it came. *)
Inductive error :=
| ErrDuplicateID
| Storage (e : driver_error).

#[global] Instance pq_Error_eq_dec : EqDecision pq_Error.
Proof. solve_decision. Defined.
#[global] Instance driver_error_eq_dec : EqDecision driver_error.
Proof. solve_decision. Defined.
#[global] Instance error_eq_dec : EqDecision error.
Proof. solve_decision. Defined.

(** A value bound to a statement parameter. *)
Inductive arg :=
| ArgTime (t : Time)
| ArgText (s : string)
| ArgNullString (ns : NullString)
| ArgArray (l : list string).

(** One row of the sessions table as the driver hands it over: the seven
    columns in declaration order, [None] for SQL NULL. *)
Record row := mkRow {
  created_at : Time;
  expires_at : Time;
  id : string;
  user_key : string;
  ip : option string;
  agent_os : option string;
  agent_browser : option string
}.

#[global] Instance row_eq_dec : EqDecision row.
Proof. solve_decision. Defined.

(** [*sql.Rows]: the rows the cursor will yield, each with the outcome of
    scanning it, and the error [Err] reports once [Next] has returned
    false. *)
Record Rows := mkRows {
  rows_scan : list (driver_error + row);
  rows_err : option driver_error
}.

(** The database handle [*sql.DB] over a world [W]: what the store calls.
    [ExecContext] and [Exec] are the same call, a cancelled context being one
    of the errors the handle may return. *)
Record sqlDB (W : Type) := mkDB {
  Exec : string -> list arg -> W -> option driver_error * W;
  Query : string -> list arg -> W -> (driver_error + Rows) * W
}.
Arguments Exec {W} _ _ _ _.
Arguments Query {W} _ _ _ _.

(** [QueryRowContext] followed by [Row.Scan], as [database/sql] defines them
    over [QueryContext]: the query's error, else the cursor's error when it
    yields nothing, else [sql.ErrNoRows] for an empty result, else the scan
    of the first row. *)
Definition QueryRowScan {W} (db : sqlDB W) (q : string) (args : list arg) (w : W)
  : (driver_error + row) * W :=
  match Query db q args w with
  | (inl e, w') => (inl e, w')
  | (inr rr, w') =>
      match rows_scan rr with
      | [] => match rows_err rr with
              | Some e => (inl e, w')
              | None => (inl ErrNoRows, w')
              end
      | x :: _ => (x, w')
      end
  end.

(** Scanning a nullable text column into a [sql.NullString]. *)
Definition scanNullString (c : option string) : NullString :=
  match c with
  | Some s => mkNullString s true
  | None => mkNullString "" false
  end.

(** ** The store *)

(** A channel field of the store: nil until [make] has run. *)
Inductive chan := chan_nil | chan_made.

Record PgStore (W : Type) := mkPgStore {
  db : sqlDB W;
  tName : string;
  stopChan : chan;
  errChan : chan
}.
Arguments db {W} _.
Arguments tName {W} _.
Arguments stopChan {W} _.
Arguments errChan {W} _.

(** The schema statement. *)
Definition table : string :=
"CREATE TABLE IF NOT EXISTS %s (
	created_at TIMESTAMPTZ NOT NULL,
	expires_at TIMESTAMPTZ NOT NULL,
	id TEXT PRIMARY KEY,
	user_key TEXT NOT NULL,
	ip TEXT,
	agent_os TEXT,
	agent_browser TEXT
);".

(** [setNullString] creates [sql.NullString] from the input string. *)
Definition setNullString (s : string) : NullString :=
  if negb (String.eqb s "") && negb (String.eqb s "<nil>")
  then mkNullString s true
  else mkNullString "" false.

Section Store.

(** [net.ParseIP] of the Go standard library. Nothing below depends on how
    it reads an address. *)
Variable ParseIP : string -> net.IP.

Context {W : Type}.

(** The assignments that follow a successful scan in [FetchByID] and in
    the loop of [FetchByUserKey]. *)
Definition decode (r : row) : Session :=
  let ip_ := scanNullString (ip r) in
  let os := scanNullString (agent_os r) in
  let browser := scanNullString (agent_browser r) in
  mkSession (created_at r) (expires_at r) (id r) (user_key r)
    (if Valid ip_ then ParseIP (String_ ip_) else [])
    (mkAgent (String_ os) (String_ browser)).

Definition Create (p : PgStore W) (s : Session) (w : W) : option error * W :=
  let q := Sprintf "INSERT INTO %s VALUES ($1, $2, $3, $4, $5, $6, $7);" (tName p) in
  let '(err, w') :=
    Exec (db p) q
      [ArgTime (CreatedAt s); ArgTime (ExpiresAt s); ArgText (ID s); ArgText (UserKey s);
       ArgNullString (setNullString (net.String_ (IP s)));
       ArgNullString (setNullString (OS (Agent s)));
       ArgNullString (setNullString (Browser (Agent s)))] w in
  match err with
  | Some (PqError perr) =>
      if String.eqb (pq_Constraint perr) (Sprintf "%s_pkey" (tName p))
      then (Some ErrDuplicateID, w')
      else (Some (Storage (PqError perr)), w')
  | Some e => (Some (Storage e), w')
  | None => (None, w')
  end.

Definition FetchByID (p : PgStore W) (id_ : string) (w : W)
  : (Session * bool * option error) * W :=
  let q := Sprintf "SELECT * FROM %s WHERE id = $1 AND expires_at > CURRENT_TIMESTAMP;"
             (tName p) in
  match QueryRowScan (db p) q [ArgText id_] w with
  | (inl ErrNoRows, w') => ((zeroSession, false, None), w')
  | (inl e, w') => ((zeroSession, false, Some (Storage e)), w')
  | (inr r, w') => ((decode r, true, None), w')
  end.

(** The loop of [FetchByUserKey] over the cursor: [ss] is the slice built
    so far. A failed scan closes the cursor and returns at once. *)
Fixpoint fetchLoop (scans : list (driver_error + row)) (ss : list Session)
  : driver_error + list Session :=
  match scans with
  | [] => inr ss
  | inl e :: _ => inl e
  | inr r :: rest => fetchLoop rest (ss ++ [decode r])
  end.

Definition FetchByUserKey (p : PgStore W) (key : string) (w : W)
  : (list Session * option error) * W :=
  let q := Sprintf "SELECT * FROM %s WHERE user_key = $1;" (tName p) in
  match Query (db p) q [ArgText key] w with
  | (inl ErrNoRows, w') => (([], None), w')
  | (inl e, w') => (([], Some (Storage e)), w')
  | (inr rr, w') =>
      match fetchLoop (rows_scan rr) [] with
      | inl e => (([], Some (Storage e)), w')
      | inr ss =>
          match rows_err rr with
          | Some e => (([], Some (Storage e)), w')
          | None => ((ss, None), w')
          end
      end
  end.

Definition lift (r : option driver_error) : option error :=
  match r with
  | Some e => Some (Storage e)
  | None => None
  end.

Definition DeleteByID (p : PgStore W) (id_ : string) (w : W) : option error * W :=
  let q := Sprintf "DELETE FROM %s WHERE id = $1;" (tName p) in
  let '(err, w') := Exec (db p) q [ArgText id_] w in
  (lift err, w').

Definition DeleteByUserKey (p : PgStore W) (key : string) (expID : list string) (w : W)
  : option error * W :=
  if (0 <? length expID)%nat then
    let q := Sprintf "DELETE FROM %s WHERE user_key = $1 AND id != ALL ($2);" (tName p) in
    let '(err, w') := Exec (db p) q ([ArgText key] ++ [ArgArray expID]) w in
    (lift err, w')
  else
    let q := Sprintf "DELETE FROM %s WHERE user_key = $1;" (tName p) in
    let '(err, w') := Exec (db p) q [ArgText key] w in
    (lift err, w').

(** [deleteExpired] deletes all expired sessions. *)
Definition deleteExpired (p : PgStore W) (w : W) : option error * W :=
  let q := Sprintf "DELETE FROM %s WHERE expires_at < CURRENT_TIMESTAMP;" (tName p) in
  let '(err, w') := Exec (db p) q [] w in
  (lift err, w').

End Store.

(** ** A reference model of the database

    The handle receives SQL text. The model reads the statements the store
    can send, for a table named by a plain lower-case identifier, and gives
    them their PostgreSQL meaning on tables of session rows. Any other text
    is a syntax error. *)

Module pgsql.

Definition is_digit (c : ascii) : bool :=
  let n := N_of_ascii c in ((48 <=? n) && (n <=? 57))%N.

Definition is_ident_char (c : ascii) : bool :=
  let n := N_of_ascii c in
  (((97 <=? n) && (n <=? 122)) || is_digit c || (n =? 95))%N.

Fixpoint all_ident (s : string) : bool :=
  match s with
  | EmptyString => true
  | String c r => is_ident_char c && all_ident r
  end.

(** An identifier the model reads as a name: not empty, not starting with a
    digit, made of lower-case letters, digits and underscores. *)
Definition valid_ident (s : string) : bool :=
  match s with
  | EmptyString => false
  | String c _ => negb (is_digit c) && all_ident s
  end.

Fixpoint scan_ident (s : string) : string * string :=
  match s with
  | EmptyString => (EmptyString, EmptyString)
  | String c r =>
      if is_ident_char c
      then let '(a, b) := scan_ident r in (String c a, b)
      else (EmptyString, s)
  end.

Fixpoint strip_prefix (p s : string) : option string :=
  match p, s with
  | EmptyString, _ => Some s
  | String a p', String b s' => if Ascii.eqb a b then strip_prefix p' s' else None
  | String _ _, EmptyString => None
  end.

(** [split sep s]: the pieces of [s] between the characters [sep] holds of. *)
Fixpoint split (sep : ascii -> bool) (s : string) : list string :=
  match s with
  | EmptyString => [EmptyString]
  | String c r =>
      if sep c then EmptyString :: split sep r
      else match split sep r with
           | h :: t => String c h :: t
           | [] => [String c EmptyString]
           end
  end.

Definition is_space (c : ascii) : bool :=
  let n := N_of_ascii c in ((n =? 32) || (n =? 9) || (n =? 10) || (n =? 13))%N.

Definition words (s : string) : list string :=
  List.filter (fun x => negb (String.eqb x "")) (split is_space s).

Inductive col_type := TIMESTAMPTZ | TEXT.
Inductive col_constraint := NULLABLE | NOT_NULL | PRIMARY_KEY.

Record column := mkColumn {
  col_name : string;
  col_ty : col_type;
  col_con : col_constraint
}.

#[global] Instance col_type_eq_dec : EqDecision col_type.
Proof. solve_decision. Defined.
#[global] Instance col_constraint_eq_dec : EqDecision col_constraint.
Proof. solve_decision. Defined.
#[global] Instance column_eq_dec : EqDecision column.
Proof. solve_decision. Defined.

Definition parse_type (s : string) : option col_type :=
  if String.eqb s "TIMESTAMPTZ" then Some TIMESTAMPTZ
  else if String.eqb s "TEXT" then Some TEXT
  else None.

Definition parse_constraint (ws : list string) : option col_constraint :=
  match ws with
  | [] => Some NULLABLE
  | [a; b] =>
      if String.eqb a "NOT" && String.eqb b "NULL" then Some NOT_NULL
      else if String.eqb a "PRIMARY" && String.eqb b "KEY" then Some PRIMARY_KEY
      else None
  | _ => None
  end.

Definition parse_column (s : string) : option column :=
  match words s with
  | name :: ty :: rest =>
      if valid_ident name then
        match parse_type ty, parse_constraint rest with
        | Some ty', Some con => Some (mkColumn name ty' con)
        | _, _ => None
        end
      else None
  | _ => None
  end.

Fixpoint parse_columns (defs : list string) : option (list column) :=
  match defs with
  | [] => Some []
  | d :: rest =>
      match parse_column d, parse_columns rest with
      | Some c, Some cs => Some (c :: cs)
      | _, _ => None
      end
  end.

(** [strip_suffix suf s]: [s] without its ending [suf]. *)
Fixpoint strip_suffix (suf s : string) : option string :=
  if String.eqb s suf then Some EmptyString
  else match s with
       | EmptyString => None
       | String c r =>
           match strip_suffix suf r with
           | Some r' => Some (String c r')
           | None => None
           end
       end.

(** The statements the model reads; parameters [$1], [$2], ... are bound
    when the statement runs. *)
Inductive statement :=
| CreateTableIfNotExists (t : string) (cols : list column)
| CreateIndex (name t col : string)
| InsertValues (t : string)
| SelectActiveById (t : string)
| SelectByUserKey (t : string)
| DeleteById (t : string)
| DeleteByUserKeyExcept (t : string)
| DeleteByUserKeyAll (t : string)
| DeleteExpired (t : string).

Definition parse_create_table (r : string) : option statement :=
  let '(t, rest) := scan_ident r in
  if valid_ident t then
    match strip_prefix " (" rest with
    | Some body =>
        match strip_suffix ");" body with
        | Some defs =>
            match parse_columns (split (Ascii.eqb ",") defs) with
            | Some cols => Some (CreateTableIfNotExists t cols)
            | None => None
            end
        | None => None
        end
    | None => None
    end
  else None.

Definition parse_create_index (r : string) : option statement :=
  let '(name, r1) := scan_ident r in
  match strip_prefix " ON " r1 with
  | Some r2 =>
      let '(t, r3) := scan_ident r2 in
      match strip_prefix " (" r3 with
      | Some r4 =>
          let '(col, r5) := scan_ident r4 in
          if valid_ident name && valid_ident t && valid_ident col && String.eqb r5 ");"
          then Some (CreateIndex name t col)
          else None
      | None => None
      end
  | None => None
  end.

Definition parse_insert (r : string) : option statement :=
  let '(t, rest) := scan_ident r in
  if valid_ident t && String.eqb rest " VALUES ($1, $2, $3, $4, $5, $6, $7);"
  then Some (InsertValues t)
  else None.

Definition parse_select (r : string) : option statement :=
  let '(t, rest) := scan_ident r in
  if valid_ident t then
    if String.eqb rest " WHERE id = $1 AND expires_at > CURRENT_TIMESTAMP;"
    then Some (SelectActiveById t)
    else if String.eqb rest " WHERE user_key = $1;"
    then Some (SelectByUserKey t)
    else None
  else None.

Definition parse_delete (r : string) : option statement :=
  let '(t, rest) := scan_ident r in
  if valid_ident t then
    if String.eqb rest " WHERE id = $1;" then Some (DeleteById t)
    else if String.eqb rest " WHERE user_key = $1 AND id != ALL ($2);"
    then Some (DeleteByUserKeyExcept t)
    else if String.eqb rest " WHERE user_key = $1;" then Some (DeleteByUserKeyAll t)
    else if String.eqb rest " WHERE expires_at < CURRENT_TIMESTAMP;"
    then Some (DeleteExpired t)
    else None
  else None.

Definition parse (q : string) : option statement :=
  match strip_prefix "CREATE TABLE IF NOT EXISTS " q with
  | Some r => parse_create_table r
  | None =>
  match strip_prefix "CREATE INDEX " q with
  | Some r => parse_create_index r
  | None =>
  match strip_prefix "INSERT INTO " q with
  | Some r => parse_insert r
  | None =>
  match strip_prefix "SELECT * FROM " q with
  | Some r => parse_select r
  | None =>
  match strip_prefix "DELETE FROM " q with
  | Some r => parse_delete r
  | None => None
  end end end end end.

(** The columns of a sessions table. *)
Definition session_columns : list column :=
  [ mkColumn "created_at" TIMESTAMPTZ NOT_NULL;
    mkColumn "expires_at" TIMESTAMPTZ NOT_NULL;
    mkColumn "id" TEXT PRIMARY_KEY;
    mkColumn "user_key" TEXT NOT_NULL;
    mkColumn "ip" TEXT NULLABLE;
    mkColumn "agent_os" TEXT NULLABLE;
    mkColumn "agent_browser" TEXT NULLABLE ].

End pgsql.

Module pg.

Import pgsql.

(** Failures the call environment injects: [on_call] fails the call itself
    (lost connection, cancelled context), [on_scan i] fails the scan of the
    [i]-th row of a cursor, [on_next] breaks the cursor after some rows. *)
Record fault_plan := mkFaults {
  on_call : option driver_error;
  on_scan : nat -> option driver_error;
  on_next : option (nat * driver_error)
}.

Definition no_faults : fault_plan := mkFaults None (fun _ => None) None.

Record index := mkIndex { ix_name : string; ix_table : string; ix_column : string }.

(** The world behind the handle: the tables by name, the indexes, the
    server's clock (the value of [CURRENT_TIMESTAMP]) and the faults of the
    next call. Clock and faults belong to the environment. *)
Record world := mkWorld {
  tables : gmap string (list row);
  indexes : list index;
  now : Time;
  faults : fault_plan
}.

(** The index PostgreSQL creates with a table for its primary key: named
    after the table, followed by [_pkey], on the key's column. *)
Definition pkey_indexes (t : string) (cols : list column) : list index :=
  map (fun c => mkIndex (t +:+ "_pkey") t (col_name c))
    (List.filter (fun c => bool_decide (col_con c = PRIMARY_KEY)) cols).

Definition set_tables (w : world) (ts : gmap string (list row)) : world :=
  mkWorld ts (indexes w) (now w) (faults w).

Definition set_env (w : world) (t : Time) (f : fault_plan) : world :=
  mkWorld (tables w) (indexes w) t f.

Definition syntax_error : driver_error := PqError (mkPqError "42601" "" "").
Definition undefined_table : driver_error := PqError (mkPqError "42P01" "" "").
Definition undefined_column : driver_error := PqError (mkPqError "42703" "" "").
Definition duplicate_relation : driver_error := PqError (mkPqError "42P07" "" "").
Definition feature_not_supported : driver_error := PqError (mkPqError "0A000" "" "").
Definition protocol_violation : driver_error := PqError (mkPqError "08P01" "" "").

(** A primary-key violation names the constraint of the column declared
    [PRIMARY KEY], which carries the name of the key's index. *)
Definition unique_violation (t : string) : driver_error :=
  PqError (mkPqError "23505" t (t +:+ "_pkey")).

(** [NullString.Value]: what the driver sends for a [sql.NullString]. *)
Definition Value (ns : NullString) : option string :=
  if Valid ns then Some (String_ ns) else None.

Definition bind_insert (args : list arg) : option row :=
  match args with
  | [ArgTime c; ArgTime e; ArgText i; ArgText k;
     ArgNullString a; ArgNullString o; ArgNullString b] =>
      Some (mkRow c e i k (Value a) (Value o) (Value b))
  | _ => None
  end.

Definition with_table (w : world) (t : string)
    (k : list row -> driver_error + (list row * world))
  : driver_error + (list row * world) :=
  match tables w !! t with
  | Some rows => k rows
  | None => inl undefined_table
  end.

(** Keeps the rows a [DELETE ... WHERE P] leaves. *)
Definition delete_where (P : row -> Prop) `{!forall r, Decision (P r)}
    (w : world) (t : string) (rows : list row) : driver_error + (list row * world) :=
  inr ([], set_tables w (<[t := filter (fun r => ~ P r) rows]> (tables w))).

(** The meaning of a statement with its parameters bound: an error, or the
    rows it returns and the world it leaves. *)
Definition run (st : statement) (args : list arg) (w : world)
  : driver_error + (list row * world) :=
  match st with
  | CreateTableIfNotExists t cols =>
      if decide (cols = session_columns) then
        match args with
        | [] =>
            match tables w !! t with
            | Some _ => inr ([], w)
            | None =>
                inr ([], mkWorld (<[t := []]> (tables w)) (indexes w ++ pkey_indexes t cols)
                           (now w) (faults w))
            end
        | _ => inl protocol_violation
        end
      else inl feature_not_supported
  | CreateIndex name t col =>
      match args with
      | [] =>
          with_table w t (fun _ =>
            if decide (col ∈ map col_name session_columns) then
              if decide (name ∈ map ix_name (indexes w)) then inl duplicate_relation
              else inr ([], mkWorld (tables w) (indexes w ++ [mkIndex name t col])
                              (now w) (faults w))
            else inl undefined_column)
      | _ => inl protocol_violation
      end
  | InsertValues t =>
      match bind_insert args with
      | Some r =>
          with_table w t (fun rows =>
            if decide (id r ∈ map id rows) then inl (unique_violation t)
            else inr ([], set_tables w (<[t := rows ++ [r]]> (tables w))))
      | None => inl protocol_violation
      end
  | SelectActiveById t =>
      match args with
      | [ArgText i] =>
          with_table w t (fun rows =>
            inr (filter (fun r => id r = i /\ now w < expires_at r) rows, w))
      | _ => inl protocol_violation
      end
  | SelectByUserKey t =>
      match args with
      | [ArgText k] =>
          with_table w t (fun rows => inr (filter (fun r => user_key r = k) rows, w))
      | _ => inl protocol_violation
      end
  | DeleteById t =>
      match args with
      | [ArgText i] => with_table w t (delete_where (fun r => id r = i) w t)
      | _ => inl protocol_violation
      end
  | DeleteByUserKeyExcept t =>
      match args with
      | [ArgText k; ArgArray ids] =>
          with_table w t
            (delete_where (fun r => user_key r = k /\ Forall (fun x => id r <> x) ids) w t)
      | _ => inl protocol_violation
      end
  | DeleteByUserKeyAll t =>
      match args with
      | [ArgText k] => with_table w t (delete_where (fun r => user_key r = k) w t)
      | _ => inl protocol_violation
      end
  | DeleteExpired t =>
      match args with
      | [] => with_table w t (delete_where (fun r => expires_at r < now w) w t)
      | _ => inl protocol_violation
      end
  end.

(** A call: the injected fault if any, else the statement the text denotes. *)
Definition call (q : string) (args : list arg) (w : world)
  : driver_error + (list row * world) :=
  match on_call (faults w) with
  | Some e => inl e
  | None =>
      match parse q with
      | Some st => run st args w
      | None => inl syntax_error
      end
  end.

Definition pg_Exec (q : string) (args : list arg) (w : world) : option driver_error * world :=
  match call q args w with
  | inl e => (Some e, w)
  | inr (_, w') => (None, w')
  end.

Fixpoint scans (f : nat -> option driver_error) (i : nat) (rs : list row)
  : list (driver_error + row) :=
  match rs with
  | [] => []
  | r :: rest =>
      match f i with
      | Some e => inl e :: scans f (S i) rest
      | None => inr r :: scans f (S i) rest
      end
  end.

Definition cursor (f : fault_plan) (rs : list row) : Rows :=
  match on_next f with
  | Some (n, e) => mkRows (scans (on_scan f) 0 (take n rs)) (Some e)
  | None => mkRows (scans (on_scan f) 0 rs) None
  end.

Definition pg_Query (q : string) (args : list arg) (w : world)
  : (driver_error + Rows) * world :=
  match call q args w with
  | inl e => (inl e, w)
  | inr (rs, w') => (inr (cursor (faults w) rs), w')
  end.

(** The handle onto the modelled database. *)
Definition handle : sqlDB world := mkDB world pg_Exec pg_Query.

End pg.

(** ** Construction and the cleanup goroutine *)

(** Where the goroutine running [startCleanup] stands. *)
Inductive goroutine :=
| NotStarted                      (* no [go] statement was executed *)
| Ready (d : Duration)            (* started, body not yet entered *)
| Selecting (d : Duration)        (* waiting in [select] on the ticker and [stopChan] *)
| Sending (d : Duration) (e : error) (* waiting in [p.errChan <- err] *)
| Returned.                       (* ticker stopped, function returned *)

(** The store object together with the goroutine it may have started. The
    goroutine writes the object's [stopChan]. *)
Record runtime (W : Type) := mkRuntime {
  self : PgStore W;
  cleanup : goroutine
}.
Arguments self {W} _.
Arguments cleanup {W} _.

(** What one step of the goroutine is driven by: being scheduled for the
    first time, a receive from the ticker's channel, a receive from
    [stopChan], or the host receiving from the error channel. *)
Inductive event := EvRun | EvTick | EvStop | EvDrain.

(** What a step lets the outside see. *)
Inductive observation :=
| Swept (result : option error)   (* [deleteExpired] ran and returned this *)
| Delivered (e : error).          (* the host received this on the error channel *)

Inductive call_outcome := Returns | Blocks.

Section Lifecycle.

Context {W : Type}.

Definition New (db_ : sqlDB W) (tName_ : string) (d : Duration) (w : W)
  : (option (runtime W) * option error) * W :=
  let p := mkPgStore W db_ tName_ chan_nil chan_made in
  let '(err, w') := Exec (db p) (Sprintf table (tName p)) [] w in
  match err with
  | Some e => ((None, Some (Storage e)), w')
  | None =>
      if 0 <? d
      then ((Some (mkRuntime W p (Ready d)), None), w')
      else ((Some (mkRuntime W p NotStarted), None), w')
  end.

Definition set_stopChan (p : PgStore W) (c : chan) : PgStore W :=
  mkPgStore W (db p) (tName p) c (errChan p).

(** One step of [startCleanup]. [None]: the goroutine is not at a point
    where the event can happen. *)
Definition startCleanup_step (rt : runtime W) (ev : event) (w : W)
  : option (runtime W * W * list observation) :=
  match cleanup rt, ev with
  | Ready d, EvRun =>
      Some (mkRuntime W (set_stopChan (self rt) chan_made) (Selecting d), w, [])
  | Selecting d, EvTick =>
      match deleteExpired (self rt) w with
      | (Some err, w') => Some (mkRuntime W (self rt) (Sending d err), w', [Swept (Some err)])
      | (None, w') => Some (mkRuntime W (self rt) (Selecting d), w', [Swept None])
      end
  | Selecting d, EvStop => Some (mkRuntime W (self rt) Returned, w, [])
  | Sending d err, EvDrain => Some (mkRuntime W (self rt) (Selecting d), w, [Delivered err])
  | _, _ => None
  end.

(** [StopCleanup] terminates the automatic cleanup process. The send on
    [stopChan] completes when the goroutine receives it in its [select]. *)
Definition StopCleanup (rt : runtime W) (w : W) : runtime W * W * call_outcome :=
  match stopChan (self rt) with
  | chan_nil => (rt, w, Returns)
  | chan_made =>
      match startCleanup_step rt EvStop w with
      | Some (rt', w', _) => (rt', w', Returns)
      | None => (rt, w, Blocks)
      end
  end.

(** [CleanupErr] returns the channel of the errors produced during the
    automatic cleanup. *)
Definition CleanupErr (rt : runtime W) : chan := errChan (self rt).

(** A history: goroutine events interleaved with whatever else changes the
    world (the clock, the host's own calls). An event that cannot happen
    where the goroutine stands leaves everything as it is. *)
Inductive input :=
| Ev (e : event)
| Env (f : W -> W).

Fixpoint history (ins : list input) (rt : runtime W) (w : W)
  : runtime W * W * list observation :=
  match ins with
  | [] => (rt, w, [])
  | Env f :: rest => history rest rt (f w)
  | Ev e :: rest =>
      match startCleanup_step rt e w with
      | Some (rt', w', obs) =>
          let '(rt'', w'', obs') := history rest rt' w' in (rt'', w'', obs ++ obs')
      | None => history rest rt w
      end
  end.


Definition delivered (obs : list observation) : list error :=
  omap (fun o => match o with Delivered e => Some e | _ => None end) obs.


End Lifecycle.

(** ** Vocabulary of the properties *)

(** The store object over the modelled database, as [New] builds it. *)
Definition store (t : string) : PgStore pg.world :=
  mkPgStore pg.world pg.handle t chan_nil chan_made.

(** The insert [Create] sends. *)
Definition insert_call {W} (p : PgStore W) (s : Session) (w : W) : option driver_error * W :=
  Exec (db p) (Sprintf "INSERT INTO %s VALUES ($1, $2, $3, $4, $5, $6, $7);" (tName p))
    [ArgTime (CreatedAt s); ArgTime (ExpiresAt s); ArgText (ID s); ArgText (UserKey s);
     ArgNullString (setNullString (net.String_ (IP s)));
     ArgNullString (setNullString (OS (Agent s)));
     ArgNullString (setNullString (Browser (Agent s)))] w.

(** The row [Create] asks the database to store for a session. *)
Definition encode (s : Session) : row :=
  mkRow (CreatedAt s) (ExpiresAt s) (ID s) (UserKey s)
    (pg.Value (setNullString (net.String_ (IP s))))
    (pg.Value (setNullString (OS (Agent s))))
    (pg.Value (setNullString (Browser (Agent s)))).

(** The driver reports a violation of the primary key of table [t]. *)
Definition pkey_violation (t : string) (e : driver_error) : Prop :=
  exists perr, e = PqError perr /\ pq_Constraint perr = t +:+ "_pkey".

(** The query of [FetchByID] followed by the scan of its row. *)
Definition select_id_call {W} (p : PgStore W) (i : string) (w : W)
  : (driver_error + row) * W :=
  QueryRowScan (db p)
    (Sprintf "SELECT * FROM %s WHERE id = $1 AND expires_at > CURRENT_TIMESTAMP;" (tName p))
    [ArgText i] w.

(** A row is active at the server's time [now]. *)
Definition active (now_ : Time) (r : row) : Prop := now_ < expires_at r.

(** The query of [FetchByUserKey]. *)
Definition select_user_key_call {W} (p : PgStore W) (key : string) (w : W)
  : (driver_error + Rows) * W :=
  Query (db p) (Sprintf "SELECT * FROM %s WHERE user_key = $1;" (tName p)) [ArgText key] w.

(** The table [t] has an index on its expiration column. *)
Definition has_expiration_index (t : string) (w : pg.world) : Prop :=
  exists ix, ix ∈ pg.indexes w /\ pg.ix_table ix = t /\ pg.ix_column ix = "expires_at".

(** ** The older variant of the file *)

Module postgres.

(** [setNullString] of package [postgres]: only the empty string is absent. *)
Definition setNullString (s : string) : NullString :=
  if negb (String.eqb s "")
  then mkNullString s true
  else mkNullString "" false.

End postgres.

(** ** Vocabulary of the further properties *)

(** What a text field of a session comes back as after it was written
    through [setNullString] and read from its column. *)
Definition through_column (s : string) : string :=
  if decide (s = "" \/ s = "<nil>") then "" else s.

(** The session [FetchByID] reads for a session [Create] has written. *)
Definition read_back (ParseIP : string -> net.IP) (s : Session) : Session :=
  mkSession (CreatedAt s) (ExpiresAt s) (ID s) (UserKey s)
    (if decide (net.String_ (IP s) = "" \/ net.String_ (IP s) = "<nil>")
     then [] else ParseIP (net.String_ (IP s)))
    (mkAgent (through_column (OS (Agent s))) (through_column (Browser (Agent s)))).

(** In every table the ids are pairwise different. *)
Definition unique_ids (w : pg.world) : Prop :=
  forall t rows, pg.tables w !! t = Some rows -> NoDup (map id rows).

(** What a history does to the world when the goroutine takes no step. *)
Fixpoint env_only {W} (ins : list (@input W)) (w : W) : W :=
  match ins with
  | [] => w
  | Env f :: rest => env_only rest (f w)
  | Ev _ :: rest => env_only rest w
  end.

(** The host never receives from the error channel in the history. *)
Definition no_drain {W} (ins : list (@input W)) : bool :=
  forallb (fun i => match i with Ev EvDrain => false | _ => true end) ins.

(** The sweeps of a history. *)
Definition sweeps (obs : list observation) : list (option error) :=
  omap (fun o => match o with Swept r => Some r | _ => None end) obs.

(** ** Concrete data *)

(** A sessions table with an active session, an expired one, and a session
    of another user; the server's clock stands at 50. *)
Definition demo_rows : list row :=
  [ mkRow 1 100 "id1" "key" None (Some "GNU/Linux") (Some "Firefox");
    mkRow 2 40 "id2" "key" None None None;
    mkRow 3 100 "id3" "other" None None None ].

Definition demo_world : pg.world :=
  pg.mkWorld {["sessions" := demo_rows]} [pg.mkIndex "sessions_pkey" "sessions" "id"] 50
    pg.no_faults.

Definition empty_world : pg.world := pg.mkWorld ∅ [] 0 pg.no_faults.

(** The world whose next call returns [sql.ErrNoRows]. *)
Definition no_rows_world : pg.world :=
  pg.mkWorld {["sessions" := demo_rows]} [pg.mkIndex "sessions_pkey" "sessions" "id"] 50
    (pg.mkFaults (Some ErrNoRows) (fun _ => None) None).

(** A session without IP, OS and browser. *)
Definition bare_session : Session := mkSession 5 100 "id9" "key" [] (mkAgent "" "").

(** An address reader for the runs below, none of which stores an address
    that is read back. *)
Definition no_ParseIP : string -> net.IP := fun _ => [].


(** * Properties *)

(** ** The runtime pieces on examples *)

Example IP_String_v4 : net.String_ [127; 0; 0; 1]%N = "127.0.0.1".
Proof. reflexivity. Qed.

Example IP_String_v6 :
  net.String_ [32; 1; 13; 184; 0; 0; 0; 0; 0; 0; 0; 0; 0; 0; 0; 1]%N = "2001:db8::1".
Proof. reflexivity. Qed.

Example IP_String_loopback6 :
  net.String_ [0; 0; 0; 0; 0; 0; 0; 0; 0; 0; 0; 0; 0; 0; 0; 1]%N = "::1".
Proof. reflexivity. Qed.

Example IP_String_odd : net.String_ [1; 171]%N = "?01ab".
Proof. reflexivity. Qed.

Example Sprintf_pkey : Sprintf "%s_pkey" "sessions" = "sessions_pkey".
Proof. reflexivity. Qed.

Example parse_table_sessions :
  pgsql.parse (Sprintf table "sessions")
  = Some (pgsql.CreateTableIfNotExists "sessions" pgsql.session_columns).
Proof. reflexivity. Qed.

Example parse_old_schema_index :
  pgsql.parse "CREATE INDEX expiration ON sessions (expires);"
  = Some (pgsql.CreateIndex "expiration" "sessions" "expires").
Proof. reflexivity. Qed.

Example parse_rejects_injection :
  pgsql.parse (Sprintf "DELETE FROM %s WHERE id = $1;" "s; DROP TABLE s") = None.
Proof. reflexivity. Qed.

(** ** The text the store sends is read as intended *)

Section Parsing.

Import pgsql.

Lemma valid_ident_all t : valid_ident t = true -> all_ident t = true.
Proof.
  destruct t as [|c r]; [discriminate|].
  unfold valid_ident. intros H. apply andb_prop in H. tauto.
Qed.

Lemma scan_ident_app t rest :
  all_ident t = true ->
  match rest with
  | EmptyString => true
  | String c _ => negb (is_ident_char c)
  end = true ->
  scan_ident (t +:+ rest) = (t, rest).
Proof.
  intros Ht Hr. induction t as [|c r IH]; simpl in *.
  - destruct rest as [|c r]; [reflexivity|].
    simpl. apply negb_true_iff in Hr. rewrite Hr. reflexivity.
  - apply andb_prop in Ht. destruct Ht as [Hc Hall].
    rewrite Hc, (IH Hall). reflexivity.
Qed.

Ltac read_statement H :=
  unfold parse; cbn [Sprintf strip_prefix Ascii.eqb Bool.eqb];
  unfold parse_create_table, parse_insert, parse_select, parse_delete;
  rewrite scan_ident_app by (try apply valid_ident_all; first [exact H | reflexivity]);
  rewrite ?H; reflexivity.

Lemma parse_table t :
  valid_ident t = true ->
  parse (Sprintf table t) = Some (CreateTableIfNotExists t session_columns).
Proof. intros H. unfold table. read_statement H. Qed.

Lemma parse_insert_query t :
  valid_ident t = true ->
  parse (Sprintf "INSERT INTO %s VALUES ($1, $2, $3, $4, $5, $6, $7);" t)
  = Some (InsertValues t).
Proof. intros H. read_statement H. Qed.

Lemma parse_select_id t :
  valid_ident t = true ->
  parse (Sprintf "SELECT * FROM %s WHERE id = $1 AND expires_at > CURRENT_TIMESTAMP;" t)
  = Some (SelectActiveById t).
Proof. intros H. read_statement H. Qed.

Lemma parse_select_user_key t :
  valid_ident t = true ->
  parse (Sprintf "SELECT * FROM %s WHERE user_key = $1;" t) = Some (SelectByUserKey t).
Proof. intros H. read_statement H. Qed.

Lemma parse_delete_id t :
  valid_ident t = true ->
  parse (Sprintf "DELETE FROM %s WHERE id = $1;" t) = Some (DeleteById t).
Proof. intros H. read_statement H. Qed.

Lemma parse_delete_except t :
  valid_ident t = true ->
  parse (Sprintf "DELETE FROM %s WHERE user_key = $1 AND id != ALL ($2);" t)
  = Some (DeleteByUserKeyExcept t).
Proof. intros H. read_statement H. Qed.

Lemma parse_delete_all t :
  valid_ident t = true ->
  parse (Sprintf "DELETE FROM %s WHERE user_key = $1;" t) = Some (DeleteByUserKeyAll t).
Proof. intros H. read_statement H. Qed.

Lemma parse_delete_expired t :
  valid_ident t = true ->
  parse (Sprintf "DELETE FROM %s WHERE expires_at < CURRENT_TIMESTAMP;" t)
  = Some (DeleteExpired t).
Proof. intros H. read_statement H. Qed.

End Parsing.

(** ** Calls on the modelled database *)

Lemma filter_none {A} (P : A -> Prop) `{!forall x, Decision (P x)} (l : list A) :
  (forall x, x ∈ l -> ~ P x) -> filter P l = [].
Proof.
  intros Hall. induction l as [|x l IH]; [reflexivity|].
  rewrite filter_cons_False.
  - apply IH. intros y Hy. apply Hall. apply list_elem_of_further. exact Hy.
  - apply Hall. apply list_elem_of_here.
Qed.

Section Calls.

Import pgsql pg.

Lemma call_parsed q st args w :
  on_call (faults w) = None -> parse q = Some st -> call q args w = run st args w.
Proof. intros Hf Hp. unfold call. rewrite Hf, Hp. reflexivity. Qed.

Lemma call_fault q args w e :
  on_call (faults w) = Some e -> call q args w = inl e.
Proof. intros Hf. unfold call. rewrite Hf. reflexivity. Qed.

Lemma scans_no_fault f i rs :
  (forall j, f j = None) -> scans f i rs = map inr rs.
Proof.
  intros Hf. revert i. induction rs as [|r rs IH]; intros i; simpl; [reflexivity|].
  rewrite Hf, IH. reflexivity.
Qed.

Lemma cursor_no_faults rs : cursor no_faults rs = mkRows (map inr rs) None.
Proof. unfold cursor. simpl. rewrite scans_no_fault; reflexivity. Qed.

End Calls.

Lemma Sprintf_pkey_name t : Sprintf "%s_pkey" t = t +:+ "_pkey".
Proof. reflexivity. Qed.

Lemma Create_classifies {W} (p : PgStore W) s w :
  Create p s w =
  (match fst (insert_call p s w) with
   | None => None
   | Some (PqError perr) =>
       if String.eqb (pq_Constraint perr) (tName p +:+ "_pkey")
       then Some ErrDuplicateID else Some (Storage (PqError perr))
   | Some e => Some (Storage e)
   end, snd (insert_call p s w)).
Proof.
  unfold Create, insert_call. rewrite Sprintf_pkey_name.
  destruct (Exec _ _ _ _) as [[[|perr|msg]|] w']; simpl; try reflexivity.
  destruct (String.eqb _ _); reflexivity.
Qed.

Lemma insert_call_store t s w rows :
  pgsql.valid_ident t = true ->
  pg.tables w !! t = Some rows ->
  pg.on_call (pg.faults w) = None ->
  insert_call (store t) s w =
  if decide (ID s ∈ map id rows) then (Some (pg.unique_violation t), w)
  else (None, pg.set_tables w (<[t := rows ++ [encode s]]> (pg.tables w))).
Proof.
  intros Hv Ht Hf. unfold insert_call. simpl. unfold pg.pg_Exec.
  rewrite (call_parsed _ _ _ _ Hf (parse_insert_query t Hv)).
  simpl. unfold pg.with_table. rewrite Ht. simpl.
  destruct (decide _); reflexivity.
Qed.

(** C2. [Create] returns nil when the insert succeeds; it returns
    [ErrDuplicateID] exactly when the insert's error is a [*pq.Error] whose
    constraint is the table's name followed by [_pkey]; every other error is
    returned as it came. On the modelled database an insert whose id is
    already in the table is such a violation and leaves the world, hence the
    row already stored, as it was. *)
Theorem Create_outcomes :
  (forall (W : Type) (p : PgStore W) (s : Session) (w : W),
      snd (Create p s w) = snd (insert_call p s w) /\
      (fst (insert_call p s w) = None -> fst (Create p s w) = None) /\
      (fst (Create p s w) = Some ErrDuplicateID <->
       exists e, fst (insert_call p s w) = Some e /\ pkey_violation (tName p) e) /\
      (forall e, fst (insert_call p s w) = Some e -> ~ pkey_violation (tName p) e ->
                 fst (Create p s w) = Some (Storage e))) /\
  (forall (t : string) (s : Session) (w : pg.world) (rows : list row) (r : row),
      pgsql.valid_ident t = true ->
      pg.tables w !! t = Some rows ->
      pg.on_call (pg.faults w) = None ->
      r ∈ rows -> id r = ID s ->
      Create (store t) s w = (Some ErrDuplicateID, w) /\
      r ∈ default [] (pg.tables (snd (Create (store t) s w)) !! t)).
Proof.
  split.
  - intros W p s w. rewrite Create_classifies. simpl.
    destruct (fst (insert_call p s w)) as [[|perr|msg]|] eqn:E.
    + repeat split; try discriminate.
      * intros (e & [= <-] & perr & ? & _). discriminate.
      * intros e [= <-] _. reflexivity.
    + destruct (String.eqb_spec (pq_Constraint perr) (tName p +:+ "_pkey")) as [Hc|Hc].
      * repeat split; try discriminate.
        -- intros _. exists (PqError perr). split; [reflexivity|]. exists perr. auto.
        -- intros e [= <-] Hn. exfalso. apply Hn. exists perr. auto.
      * repeat split; try discriminate.
        -- intros (e & [= <-] & perr' & [= <-] & Hc'). contradiction.
        -- intros e [= <-] _. reflexivity.
    + repeat split; try discriminate.
      * intros (e & [= <-] & perr & ? & _). discriminate.
      * intros e [= <-] _. reflexivity.
    + repeat split; try discriminate.
      intros (e & ? & _). discriminate.
  - intros t s w rows r Hv Ht Hf Hr Hid.
    assert (Hc : Create (store t) s w = (Some ErrDuplicateID, w)).
    { rewrite Create_classifies, (insert_call_store t s w rows Hv Ht Hf).
      rewrite decide_True.
      - simpl. rewrite String.eqb_refl. reflexivity.
      - rewrite <- Hid. apply list_elem_of_fmap. exists r. auto. }
    split; [exact Hc|]. rewrite Hc. simpl. rewrite Ht. exact Hr.
Qed.

Lemma Create_store_fresh t s w rows :
  pgsql.valid_ident t = true ->
  pg.tables w !! t = Some rows ->
  pg.on_call (pg.faults w) = None ->
  ID s ∉ map id rows ->
  Create (store t) s w
  = (None, pg.set_tables w (<[t := rows ++ [encode s]]> (pg.tables w))).
Proof.
  intros Hv Ht Hf Hfresh.
  rewrite Create_classifies, (insert_call_store t s w rows Hv Ht Hf).
  rewrite decide_False by exact Hfresh. reflexivity.
Qed.

(** [setNullString] never yields a valid [<nil>] or a valid empty string. *)
Lemma setNullString_Value s :
  pg.Value (setNullString s) = if decide (s = "" \/ s = "<nil>") then None else Some s.
Proof.
  unfold setNullString, pg.Value.
  destruct (String.eqb_spec s "") as [->|H1]; [reflexivity|].
  destruct (String.eqb_spec s "<nil>") as [->|H2]; [reflexivity|].
  simpl. rewrite decide_False; [reflexivity | tauto].
Qed.

Section Fetching.

Variable ParseIP : string -> net.IP.

Import pgsql pg.

Lemma FetchByID_store t i w rows :
  valid_ident t = true ->
  tables w !! t = Some rows ->
  faults w = no_faults ->
  FetchByID ParseIP (store t) i w =
  (match filter (fun r => id r = i /\ now w < expires_at r) rows with
   | [] => (zeroSession, false, None)
   | r :: _ => (decode ParseIP r, true, None)
   end, w).
Proof.
  intros Hv Ht Hf. unfold FetchByID, QueryRowScan. simpl. unfold pg_Query.
  rewrite (call_parsed _ (SelectActiveById t)), Hf;
    [| rewrite Hf; reflexivity | apply parse_select_id; exact Hv].
  simpl. unfold with_table. rewrite Ht, cursor_no_faults. simpl.
  destruct (filter _ rows); reflexivity.
Qed.


End Fetching.

Section RoundTrip.

Variable ParseIP : string -> net.IP.

Import pgsql pg.

Lemma encode_ip_nil s : IP s = [] -> ip (encode s) = None.
Proof. intros H. unfold encode. simpl. rewrite H. reflexivity. Qed.

Lemma encode_os_empty s : OS (Agent s) = "" -> agent_os (encode s) = None.
Proof. intros H. unfold encode. simpl. rewrite H. reflexivity. Qed.

Lemma encode_browser_empty s : Browser (Agent s) = "" -> agent_browser (encode s) = None.
Proof. intros H. unfold encode. simpl. rewrite H. reflexivity. Qed.

Lemma encode_not_empty_text s :
  ip (encode s) <> Some "" /\ agent_os (encode s) <> Some "" /\
  agent_browser (encode s) <> Some "".
Proof.
  unfold encode. simpl. rewrite !setNullString_Value.
  repeat split; case_decide; try discriminate; intros [= E]; tauto.
Qed.

Lemma fetch_after_insert s rows (t2 : Time) :
  ID s ∉ map id rows ->
  t2 < ExpiresAt s ->
  filter (fun r => id r = ID s /\ t2 < expires_at r) (rows ++ [encode s]) = [encode s].
Proof.
  intros Hfresh Hexp. rewrite filter_app, (filter_none _ rows).
  - simpl. apply filter_singleton_True; [exact [] | split; [reflexivity | exact Hexp]].
  - intros r Hr [Hid _]. apply Hfresh. rewrite <- Hid.
    apply list_elem_of_fmap. exists r. auto.
Qed.

(** C1. On the modelled database, [Create] of a session whose id is new
    stores the row [encode s], in which an absent optional field (nil IP,
    empty OS, empty browser) is SQL NULL and no optional column ever holds the
    empty string. A following [FetchByID] of that id, at a time before the
    session expires, finds the session and reads each NULL column back as the
    empty value; when all three optional fields are absent the session read
    is the session written. *)
Theorem Create_FetchByID_absent :
  forall (t : string) (s : Session) (w : world) (rows : list row) (t2 : Time),
    valid_ident t = true ->
    tables w !! t = Some rows ->
    faults w = no_faults ->
    ID s ∉ map id rows ->
    t2 < ExpiresAt s ->
    exists (w1 : world) (s' : Session),
      Create (store t) s w = (None, w1) /\
      tables w1 !! t = Some (rows ++ [encode s]) /\
      FetchByID ParseIP (store t) (ID s) (set_env w1 t2 no_faults)
      = ((s', true, None), set_env w1 t2 no_faults) /\
      (IP s = [] -> ip (encode s) = None /\ IP s' = []) /\
      (OS (Agent s) = "" -> agent_os (encode s) = None /\ OS (Agent s') = "") /\
      (Browser (Agent s) = "" ->
       agent_browser (encode s) = None /\ Browser (Agent s') = "") /\
      (ip (encode s) <> Some "" /\ agent_os (encode s) <> Some "" /\
       agent_browser (encode s) <> Some "") /\
      (IP s = [] -> OS (Agent s) = "" -> Browser (Agent s) = "" -> s' = s).
Proof.
  intros t s w rows t2 Hv Ht Hf Hfresh Hexp.
  exists (set_tables w (<[t := rows ++ [encode s]]> (tables w))), (decode ParseIP (encode s)).
  assert (Hcall : on_call (faults w) = None) by (rewrite Hf; reflexivity).
  split; [apply (Create_store_fresh t s w rows Hv Ht Hcall Hfresh)|].
  split; [simpl; apply lookup_insert_eq|].
  split.
  { rewrite (FetchByID_store ParseIP t (ID s) _ (rows ++ [encode s]) Hv);
      [| simpl; apply lookup_insert_eq | reflexivity].
    simpl. rewrite (fetch_after_insert s rows t2 Hfresh Hexp). reflexivity. }
  split.
  { intros H. split; [apply encode_ip_nil; exact H|].
    unfold decode. rewrite (encode_ip_nil s H). reflexivity. }
  split.
  { intros H. split; [apply encode_os_empty; exact H|].
    unfold decode. rewrite (encode_os_empty s H). reflexivity. }
  split.
  { intros H. split; [apply encode_browser_empty; exact H|].
    unfold decode. rewrite (encode_browser_empty s H). reflexivity. }
  split; [apply encode_not_empty_text|].
  intros Hip Hos Hbr. unfold decode.
  rewrite (encode_ip_nil s Hip), (encode_os_empty s Hos), (encode_browser_empty s Hbr).
  destruct s as [c e i k a [o b]]. simpl in *. subst. reflexivity.
Qed.

End RoundTrip.

(** C10. The text of a nil IP is [<nil>], and [setNullString] maps it, like
    the empty string, to the invalid [NullString]. On the modelled database
    [Create] of a session whose id is new stores [encode s]: its [ip] column
    is NULL when the session's IP is nil, and is never the text [<nil>]. *)
Theorem Create_nil_IP :
  forall (t : string) (s : Session) (w : pg.world) (rows : list row),
    pgsql.valid_ident t = true ->
    pg.tables w !! t = Some rows ->
    pg.on_call (pg.faults w) = None ->
    ID s ∉ map id rows ->
    net.String_ [] = "<nil>" /\
    setNullString "<nil>" = mkNullString "" false /\
    setNullString "" = mkNullString "" false /\
    (exists w1, Create (store t) s w = (None, w1) /\
                pg.tables w1 !! t = Some (rows ++ [encode s])) /\
    (IP s = [] -> ip (encode s) = None) /\
    ip (encode s) <> Some "<nil>".
Proof.
  intros t s w rows Hv Ht Hf Hfresh.
  split; [reflexivity|]. split; [reflexivity|]. split; [reflexivity|].
  split.
  { eexists. split; [apply (Create_store_fresh t s w rows Hv Ht Hf Hfresh)|].
    simpl. apply lookup_insert_eq. }
  split.
  { intros H. unfold encode. simpl. rewrite H. reflexivity. }
  unfold encode. simpl. rewrite setNullString_Value.
  case_decide; [discriminate|]. intros [= E]. tauto.
Qed.

Section ByUserKey.

Variable ParseIP : string -> net.IP.

Import pgsql pg.

Lemma fetchLoop_rows rs acc :
  fetchLoop ParseIP (map inr rs) acc = inr (acc ++ map (decode ParseIP) rs).
Proof.
  revert acc. induction rs as [|r rs IH]; intros acc; simpl.
  - rewrite app_nil_r. reflexivity.
  - rewrite IH, <- app_assoc. reflexivity.
Qed.

Lemma fetchLoop_scan_error rs e rest acc :
  fetchLoop ParseIP (map inr rs ++ inl e :: rest) acc = inl e.
Proof.
  revert acc. induction rs as [|r rs IH]; intros acc; simpl; [reflexivity | apply IH].
Qed.

Lemma FetchByUserKey_unfold {W} (p : PgStore W) key w :
  FetchByUserKey ParseIP p key w =
  match select_user_key_call p key w with
  | (inl ErrNoRows, w') => (([], None), w')
  | (inl e, w') => (([], Some (Storage e)), w')
  | (inr rr, w') =>
      match fetchLoop ParseIP (rows_scan rr) [] with
      | inl e => (([], Some (Storage e)), w')
      | inr ss =>
          match rows_err rr with
          | Some e => (([], Some (Storage e)), w')
          | None => ((ss, None), w')
          end
      end
  end.
Proof. reflexivity. Qed.

Lemma FetchByUserKey_store t key w rows :
  valid_ident t = true ->
  tables w !! t = Some rows ->
  faults w = no_faults ->
  FetchByUserKey ParseIP (store t) key w
  = ((map (decode ParseIP) (filter (fun r => user_key r = key) rows), None), w).
Proof.
  intros Hv Ht Hf. rewrite FetchByUserKey_unfold. unfold select_user_key_call.
  simpl. unfold pg_Query.
  rewrite (call_parsed _ (SelectByUserKey t)), Hf;
    [| rewrite Hf; reflexivity | apply parse_select_user_key; exact Hv].
  simpl. unfold with_table. rewrite Ht, cursor_no_faults. simpl.
  rewrite fetchLoop_rows. reflexivity.
Qed.

(** C4. On the modelled database, without faults, [FetchByUserKey] returns
    the decoded rows of the table whose [user_key] is the key, in the table's
    order, and nothing else decides membership: every such row is returned
    whatever its [expires_at], those already expired at the server's clock
    included. *)
Theorem FetchByUserKey_all_rows :
  forall (t key : string) (w : world) (rows : list row),
    valid_ident t = true ->
    tables w !! t = Some rows ->
    faults w = no_faults ->
    FetchByUserKey ParseIP (store t) key w
    = ((map (decode ParseIP) (filter (fun r => user_key r = key) rows), None), w) /\
    (forall r, r ∈ rows -> user_key r = key ->
               decode ParseIP r ∈ fst (fst (FetchByUserKey ParseIP (store t) key w))) /\
    (forall r, r ∈ rows -> user_key r = key -> expires_at r <= now w ->
               decode ParseIP r ∈ fst (fst (FetchByUserKey ParseIP (store t) key w))) /\
    length (fst (fst (FetchByUserKey ParseIP (store t) key w)))
    = length (filter (fun r => user_key r = key) rows).
Proof.
  intros t key w rows Hv Ht Hf.
  rewrite (FetchByUserKey_store t key w rows Hv Ht Hf). simpl.
  assert (Hin : forall r, r ∈ rows -> user_key r = key ->
                 decode ParseIP r ∈ map (decode ParseIP)
                                     (filter (fun r => user_key r = key) rows)).
  { intros r Hr Hk. apply list_elem_of_fmap. exists r. split; [reflexivity|].
    apply list_elem_of_filter. split; assumption. }
  split; [reflexivity|]. split; [exact Hin|]. split.
  - intros r Hr Hk _. apply Hin; assumption.
  - apply length_map.
Qed.

(** C9, as the code has it. [FetchByUserKey] returns a nil error and no
    sessions when the cursor yields no row or when the query itself returns
    [sql.ErrNoRows]; it returns the error and no sessions when the query
    returns any other error, when the scan of a row fails (whatever was
    scanned before), or when the cursor reports an error after the last row.
    With no failure it returns the decoded rows; on the modelled database,
    without faults, a key no row carries gives no sessions and a nil error. *)
Theorem FetchByUserKey_outcomes :
  (forall (W : Type) (p : PgStore W) (key : string) (w : W),
    (fst (select_user_key_call p key w) = inl ErrNoRows ->
     fst (FetchByUserKey ParseIP p key w) = ([], None)) /\
    (forall e, fst (select_user_key_call p key w) = inl e -> e <> ErrNoRows ->
               fst (FetchByUserKey ParseIP p key w) = ([], Some (Storage e))) /\
    (forall rr rs e rest,
        fst (select_user_key_call p key w) = inr rr ->
        rows_scan rr = map inr rs ++ inl e :: rest ->
        fst (FetchByUserKey ParseIP p key w) = ([], Some (Storage e))) /\
    (forall rr rs e,
        fst (select_user_key_call p key w) = inr rr ->
        rows_scan rr = map inr rs -> rows_err rr = Some e ->
        fst (FetchByUserKey ParseIP p key w) = ([], Some (Storage e))) /\
    (forall rr rs,
        fst (select_user_key_call p key w) = inr rr ->
        rows_scan rr = map inr rs -> rows_err rr = None ->
        fst (FetchByUserKey ParseIP p key w) = (map (decode ParseIP) rs, None)) /\
    (forall rr,
        fst (select_user_key_call p key w) = inr rr ->
        rows_scan rr = [] -> rows_err rr = None ->
        fst (FetchByUserKey ParseIP p key w) = ([], None))) /\
  (forall (t key : string) (w : world) (rows : list row),
      valid_ident t = true ->
      tables w !! t = Some rows ->
      faults w = no_faults ->
      (forall r, r ∈ rows -> user_key r <> key) ->
      FetchByUserKey ParseIP (store t) key w = (([], None), w)).
Proof.
  split.
  { intros W p key w. rewrite FetchByUserKey_unfold.
    destruct (select_user_key_call p key w) as [[e0|rr0] w']; simpl.
    - repeat split; try discriminate.
      + intros [= ->]. reflexivity.
      + intros e [= ->] Hne. destruct e; [contradiction | reflexivity | reflexivity].
    - repeat split; try discriminate.
      + intros rr rs e rest [= ->] Hs. rewrite Hs, fetchLoop_scan_error. reflexivity.
      + intros rr rs e [= ->] Hs He. rewrite Hs, fetchLoop_rows, He. reflexivity.
      + intros rr rs [= ->] Hs He. rewrite Hs, fetchLoop_rows, He. reflexivity.
      + intros rr [= ->] Hs He. rewrite Hs, He. reflexivity. }
  intros t key w rows Hv Ht Hf Hnone.
  rewrite (FetchByUserKey_store t key w rows Hv Ht Hf).
  rewrite (filter_none _ rows Hnone). reflexivity.
Qed.

End ByUserKey.

Section Deleting.

Import pgsql pg.

Lemma all_different_not_elem (x : string) (ids : list string) :
  Forall (fun y => x <> y) ids <-> x ∉ ids.
Proof.
  rewrite Forall_forall. split.
  - intros H Hin. exact (H x Hin eq_refl).
  - intros H y Hy ->. exact (H Hy).
Qed.

Lemma DeleteByUserKey_store t key expID w rows :
  valid_ident t = true ->
  tables w !! t = Some rows ->
  on_call (faults w) = None ->
  DeleteByUserKey (store t) key expID w
  = (None, set_tables w
             (<[t := filter (fun r => ~ (user_key r = key /\ id r ∉ expID)) rows]>
                (tables w))).
Proof.
  intros Hv Ht Hf. unfold DeleteByUserKey.
  destruct expID as [|x ids]; simpl; unfold pg_Exec.
  - rewrite (call_parsed _ _ _ _ Hf (parse_delete_all t Hv)).
    simpl. unfold with_table. rewrite Ht. unfold delete_where. simpl.
    do 3 f_equal. apply list_filter_iff. intros r. split.
    + intros Hn [Hk _]. exact (Hn Hk).
    + intros Hn Hk. apply Hn. split; [exact Hk | apply not_elem_of_nil].
  - rewrite (call_parsed _ _ _ _ Hf (parse_delete_except t Hv)).
    simpl. unfold with_table. rewrite Ht. unfold delete_where. simpl.
    do 3 f_equal. apply list_filter_iff. intros r.
    rewrite all_different_not_elem. reflexivity.
Qed.

(** C5. On the modelled database, without a fault, [DeleteByUserKey]
    succeeds and leaves in the table exactly the rows it held that are not
    both of the given user key and outside the exception list, in their
    order; what is removed is exactly the rows of that user key whose id is
    not excepted. Rows of other user keys, excepted rows, other tables and
    the indexes stay as they were. With an empty exception list every row of
    the user key is removed. *)
Theorem DeleteByUserKey_exact :
  forall (t key : string) (expID : list string) (w : world) (rows : list row),
    valid_ident t = true ->
    tables w !! t = Some rows ->
    on_call (faults w) = None ->
    exists (w' : world) (rows' : list row),
      DeleteByUserKey (store t) key expID w = (None, w') /\
      tables w' !! t = Some rows' /\
      rows' = filter (fun r => ~ (user_key r = key /\ id r ∉ expID)) rows /\
      (forall r, r ∈ rows' <-> r ∈ rows /\ ~ (user_key r = key /\ id r ∉ expID)) /\
      (forall r, r ∈ rows -> (r ∉ rows' <-> user_key r = key /\ id r ∉ expID)) /\
      (forall r, r ∈ rows -> user_key r <> key -> r ∈ rows') /\
      (forall r, r ∈ rows -> id r ∈ expID -> r ∈ rows') /\
      (expID = [] -> rows' = filter (fun r => user_key r <> key) rows) /\
      (forall t', t' <> t -> tables w' !! t' = tables w !! t') /\
      indexes w' = indexes w.
Proof.
  intros t key expID w rows Hv Ht Hf.
  eexists _, _. split; [apply (DeleteByUserKey_store t key expID w rows Hv Ht Hf)|].
  split; [simpl; apply lookup_insert_eq|].
  split; [reflexivity|].
  assert (Hmem : forall r,
             r ∈ filter (fun r => ~ (user_key r = key /\ id r ∉ expID)) rows
             <-> r ∈ rows /\ ~ (user_key r = key /\ id r ∉ expID)).
  { intros r. rewrite list_elem_of_filter. tauto. }
  split; [exact Hmem|].
  split.
  { intros r Hr. rewrite Hmem. split.
    - intros Hn. destruct (decide (user_key r = key /\ id r ∉ expID)) as [H|H];
        [exact H | exfalso; apply Hn; split; assumption].
    - intros H [_ Hn]. exact (Hn H). }
  split.
  { intros r Hr Hk. apply Hmem. split; [exact Hr | intros [Hk' _]; exact (Hk Hk')]. }
  split.
  { intros r Hr Hex. apply Hmem. split; [exact Hr | intros [_ Hn]; exact (Hn Hex)]. }
  split.
  { intros ->. apply list_filter_iff. intros r. split.
    - intros Hn Hk. apply Hn. split; [exact Hk | apply not_elem_of_nil].
    - intros Hn [Hk _]. exact (Hn Hk). }
  split.
  { intros t' Hne. simpl. apply lookup_insert_ne. congruence. }
  reflexivity.
Qed.

End Deleting.

Section Construction.

Import pgsql pg.

Lemma New_unfold {W} (db_ : sqlDB W) t d w :
  New db_ t d w =
  match fst (Exec db_ (Sprintf table t) [] w) with
  | Some e => (None, Some (Storage e), snd (Exec db_ (Sprintf table t) [] w))
  | None =>
      (Some (mkRuntime W (mkPgStore W db_ t chan_nil chan_made)
               (if 0 <? d then Ready d else NotStarted)), None,
       snd (Exec db_ (Sprintf table t) [] w))
  end.
Proof.
  unfold New. simpl. destruct (Exec db_ _ _ w) as [[e|] w']; simpl; [reflexivity|].
  destruct (0 <? d); reflexivity.
Qed.

Lemma create_table_store t w :
  valid_ident t = true ->
  on_call (faults w) = None ->
  Exec handle (Sprintf table t) [] w =
  (None, match tables w !! t with
         | Some _ => w
         | None => mkWorld (<[t := []]> (tables w))
                     (indexes w ++ [mkIndex (t +:+ "_pkey") t "id"]) (now w) (faults w)
         end).
Proof.
  intros Hv Hf. simpl. unfold pg_Exec.
  rewrite (call_parsed _ _ _ _ Hf (parse_table t Hv)). simpl.
  destruct (tables w !! t); reflexivity.
Qed.

(** C6, as the code has it. [New] sends the one statement [table], which
    reads as the creation, if absent, of the table with the seven columns
    [created_at], [expires_at], [id] (the primary key), [user_key], [ip],
    [agent_os], [agent_browser]. When that call fails [New] returns the error
    and no store. On the modelled database, without a fault, [New] returns
    the store, leaves an existing table as it is and creates an empty one
    otherwise; the only index that can appear is the one of the primary key,
    so the table has an index on its expiration column after [New] only if it
    had one before; and doing it again changes nothing. *)
Theorem New_schema :
  (forall (W : Type) (db_ : sqlDB W) (t : string) (d : Duration) (w : W) (e : driver_error),
      fst (Exec db_ (Sprintf table t) [] w) = Some e ->
      fst (New db_ t d w) = (None, Some (Storage e))) /\
  (forall (t : string) (d : Duration) (w : world),
      valid_ident t = true ->
      on_call (faults w) = None ->
      parse (Sprintf table t) = Some (CreateTableIfNotExists t session_columns) /\
      length session_columns = 7%nat /\
      map col_name session_columns
      = ["created_at"; "expires_at"; "id"; "user_key"; "ip"; "agent_os"; "agent_browser"] /\
      filter (fun c => col_con c = PRIMARY_KEY) session_columns
      = [mkColumn "id" TEXT PRIMARY_KEY] /\
      (exists rt, fst (New handle t d w) = (Some rt, None) /\ self rt = store t) /\
      (forall rows, tables w !! t = Some rows -> snd (New handle t d w) = w) /\
      (tables w !! t = None ->
       snd (New handle t d w)
       = mkWorld (<[t := []]> (tables w))
           (indexes w ++ [mkIndex (t +:+ "_pkey") t "id"]) (now w) (faults w)) /\
      (forall ix, ix ∈ indexes (snd (New handle t d w)) ->
                  ix ∈ indexes w \/ ix = mkIndex (t +:+ "_pkey") t "id") /\
      (has_expiration_index t (snd (New handle t d w)) <-> has_expiration_index t w) /\
      snd (New handle t d (snd (New handle t d w))) = snd (New handle t d w)).
Proof.
  split.
  - intros W db_ t d w e He. rewrite New_unfold, He. reflexivity.
  - intros t d w Hv Hf.
    split; [apply parse_table; exact Hv|].
    split; [reflexivity|]. split; [reflexivity|]. split; [reflexivity|].
    assert (Hsnd : forall w0, on_call (faults w0) = None ->
              snd (New handle t d w0) =
              match tables w0 !! t with
              | Some _ => w0
              | None => mkWorld (<[t := []]> (tables w0))
                          (indexes w0 ++ [mkIndex (t +:+ "_pkey") t "id"])
                          (now w0) (faults w0)
              end).
    { intros w0 Hf0. rewrite New_unfold, (create_table_store t w0 Hv Hf0). reflexivity. }
    assert (Hix : forall ix, ix ∈ indexes (snd (New handle t d w)) ->
                    ix ∈ indexes w \/ ix = mkIndex (t +:+ "_pkey") t "id").
    { intros ix. rewrite (Hsnd w Hf). destruct (tables w !! t); simpl; [tauto|].
      rewrite elem_of_app, list_elem_of_singleton. tauto. }
    split.
    { rewrite New_unfold, (create_table_store t w Hv Hf). simpl.
      eexists. split; reflexivity. }
    split.
    { intros rows Ht. rewrite (Hsnd w Hf), Ht. reflexivity. }
    split.
    { intros Ht. rewrite (Hsnd w Hf), Ht. reflexivity. }
    split; [exact Hix|].
    split.
    { unfold has_expiration_index. split.
      - intros (ix & Hin & Htab & Hcol). destruct (Hix ix Hin) as [Hold | ->].
        + exists ix. auto.
        + simpl in Hcol. discriminate Hcol.
      - intros (ix & Hin & Htab & Hcol). exists ix. split; [|auto].
        rewrite (Hsnd w Hf). destruct (tables w !! t); simpl; [exact Hin|].
        apply elem_of_app. left. exact Hin. }
    rewrite (Hsnd w Hf). destruct (tables w !! t) as [rows|] eqn:Ht.
    + rewrite (Hsnd w Hf), Ht. reflexivity.
    + rewrite Hsnd by exact Hf. simpl. rewrite lookup_insert_eq. reflexivity.
Qed.

End Construction.

Section Cleanup.

Import pgsql pg.

Lemma deleteExpired_store t w rows :
  valid_ident t = true ->
  tables w !! t = Some rows ->
  on_call (faults w) = None ->
  deleteExpired (store t) w
  = (None, set_tables w
             (<[t := filter (fun r => ~ expires_at r < now w) rows]> (tables w))).
Proof.
  intros Hv Ht Hf. unfold deleteExpired. simpl. unfold pg_Exec.
  rewrite (call_parsed _ _ _ _ Hf (parse_delete_expired t Hv)).
  simpl. unfold with_table. rewrite Ht. reflexivity.
Qed.

Lemma deleteExpired_fault {W} (p : PgStore W) w :
  deleteExpired p w =
  (lift (fst (Exec (db p)
                (Sprintf "DELETE FROM %s WHERE expires_at < CURRENT_TIMESTAMP;" (tName p))
                [] w)),
   snd (Exec (db p)
          (Sprintf "DELETE FROM %s WHERE expires_at < CURRENT_TIMESTAMP;" (tName p)) [] w)).
Proof. unfold deleteExpired. destruct (Exec _ _ _ _). reflexivity. Qed.






(** C8. A store built by [New] with interval 0 has a nil [stopChan] and no
    goroutine; [StopCleanup] on it returns at once, whatever the world, and
    leaves the store and the world as they were. It is the check of
    [stopChan] against nil that decides: [StopCleanup] returns at once on
    every store whose [stopChan] is nil. *)
Theorem StopCleanup_unstarted :
  forall (W : Type) (db_ : sqlDB W) (t : string) (w w1 : W) (rt : runtime W),
    New db_ t 0 w = (Some rt, None, w1) ->
    stopChan (self rt) = chan_nil /\
    cleanup rt = NotStarted /\
    (forall w2, StopCleanup rt w2 = (rt, w2, Returns)) /\
    (forall ev w2, startCleanup_step rt ev w2 = None) /\
    (forall (rt' : runtime W) w2,
        stopChan (self rt') = chan_nil -> StopCleanup rt' w2 = (rt', w2, Returns)).
Proof.
  intros W db_ t w w1 rt H. rewrite New_unfold in H.
  destruct (fst (Exec db_ (Sprintf table t) [] w)); [discriminate|].
  simpl in H. injection H as <- _.
  split; [reflexivity|]. split; [reflexivity|]. split; [|split].
  - intros w2. reflexivity.
  - intros ev w2. reflexivity.
  - intros rt' w2 Hnil. unfold StopCleanup. rewrite Hnil. reflexivity.
Qed.

End Cleanup.

(** ** Concrete runs *)

(** Three sessions of one user are created, the user's sessions are deleted
    except [id2], and the user's sessions are fetched: [id2] alone is left. *)
Example scenario_delete_except :
  let p := store "sessions" in
  let w1 := snd (New pg.handle "sessions" 0 empty_world) in
  let w2 := snd (Create p (mkSession 1 100 "id1" "key" [] (mkAgent "" "")) w1) in
  let w3 := snd (Create p (mkSession 2 100 "id2" "key" [] (mkAgent "" "")) w2) in
  let w4 := snd (Create p (mkSession 3 100 "id3" "key" [] (mkAgent "" "")) w3) in
  let w5 := snd (DeleteByUserKey p "key" ["id2"] w4) in
  fst (FetchByUserKey no_ParseIP p "key" w5)
  = ([mkSession 2 100 "id2" "key" [] (mkAgent "" "")], None).
Proof. vm_compute. reflexivity. Qed.

(** A second session with the id of a stored one is refused, and the stored
    one is read back as it was. *)
Example scenario_duplicate_id :
  let p := store "sessions" in
  let w1 := snd (New pg.handle "sessions" 0 empty_world) in
  let w2 := snd (Create p (mkSession 1 100 "id1" "key" [127; 0; 0; 1]%N
                            (mkAgent "GNU/Linux" "Firefox")) w1) in
  let r := Create p (mkSession 2 200 "id1" "other" [] (mkAgent "" "")) w2 in
  fst r = Some ErrDuplicateID /\ snd r = w2 /\
  pg.tables w2 !! "sessions"
  = Some [mkRow 1 100 "id1" "key" (Some "127.0.0.1") (Some "GNU/Linux") (Some "Firefox")].
Proof. vm_compute. repeat split; reflexivity. Qed.

(** A store with a running cleanup: a session that has already expired is
    created, the ticker fires once, and the session is gone; nothing was sent
    on the error channel. *)
Example scenario_sweep_expired :
  let p := store "sessions" in
  let w1 := snd (New pg.handle "sessions" 5 empty_world) in
  let rt := mkRuntime pg.world p (Ready 5) in
  let expired := mkSession 1 40 "id1" "key" [] (mkAgent "" "") in
  let '(rt', w', obs) :=
    history [Ev EvRun;
             Env (fun w => snd (Create p expired w));
             Env (fun w => pg.set_env w 50 pg.no_faults);
             Ev EvTick] rt w1 in
  fst (New pg.handle "sessions" 5 empty_world) = (Some rt, None) /\
  cleanup rt' = Selecting 5 /\
  pg.tables w' !! "sessions" = Some [] /\
  fst (FetchByID no_ParseIP p "id1" w') = (zeroSession, false, None) /\
  obs = [Swept None] /\ delivered obs = [].
Proof. vm_compute. repeat split; reflexivity. Qed.

Ltac by_computation :=
  match goal with
  | |- ?P => refine (bool_decide_unpack P _); vm_compute; exact I
  end.

Lemma Create_FetchByID_absent_witness :
  exists w1,
    Create (store "sessions") bare_session demo_world = (None, w1) /\
    pg.tables w1 !! "sessions"
    = Some (demo_rows ++ [mkRow 5 100 "id9" "key" None None None]) /\
    FetchByID no_ParseIP (store "sessions") "id9" (pg.set_env w1 60 pg.no_faults)
    = ((bare_session, true, None), pg.set_env w1 60 pg.no_faults).
Proof.
  destruct (Create_FetchByID_absent no_ParseIP "sessions" bare_session demo_world
              demo_rows 60)
    as (w1 & s' & Hc & Ht & Hfetch & _ & _ & _ & _ & Hs);
    [reflexivity | reflexivity | reflexivity | by_computation | simpl; lia |].
  exists w1. rewrite (Hs eq_refl eq_refl eq_refl) in Hfetch.
  split; [exact Hc|]. split; [exact Ht | exact Hfetch].
Defined.

Lemma Create_outcomes_witness :
  Create (store "sessions") (mkSession 7 200 "id1" "key2" [] (mkAgent "" "")) demo_world
  = (Some ErrDuplicateID, demo_world).
Proof.
  apply (proj2 Create_outcomes "sessions" _ demo_world demo_rows
           (mkRow 1 100 "id1" "key" None (Some "GNU/Linux") (Some "Firefox")));
    [reflexivity | reflexivity | reflexivity | by_computation | reflexivity].
Defined.


Lemma FetchByUserKey_all_rows_witness :
  FetchByUserKey no_ParseIP (store "sessions") "key" demo_world
  = (([mkSession 1 100 "id1" "key" [] (mkAgent "GNU/Linux" "Firefox");
       mkSession 2 40 "id2" "key" [] (mkAgent "" "")], None), demo_world).
Proof.
  apply (FetchByUserKey_all_rows no_ParseIP "sessions" "key" demo_world demo_rows);
    reflexivity.
Defined.

Lemma FetchByUserKey_outcomes_witness :
  fst (FetchByUserKey no_ParseIP (store "sessions") "key" no_rows_world) = ([], None) /\
  fst (FetchByUserKey no_ParseIP (store "sessions") "key"
         (pg.set_env demo_world 50
            (pg.mkFaults None (fun i => if (i =? 1)%nat then Some (ErrOther "scan") else None)
               None)))
  = ([], Some (Storage (ErrOther "scan"))).
Proof.
  split.
  - apply (proj1 (FetchByUserKey_outcomes no_ParseIP) pg.world (store "sessions") "key"
             no_rows_world).
    reflexivity.
  - pose proof (proj1 (FetchByUserKey_outcomes no_ParseIP) pg.world (store "sessions") "key"
                  (pg.set_env demo_world 50
                     (pg.mkFaults None
                        (fun i => if (i =? 1)%nat then Some (ErrOther "scan") else None) None)))
      as (_ & _ & H & _).
    eapply (H _ [mkRow 1 100 "id1" "key" None (Some "GNU/Linux") (Some "Firefox")]
              (ErrOther "scan") []); reflexivity.
Defined.

(** The query returns the error [sql.ErrNoRows], and [FetchByUserKey]
    returns a nil error. *)
Lemma FetchByUserKey_swallows_ErrNoRows :
  fst (select_user_key_call (store "sessions") "key" no_rows_world) = inl ErrNoRows /\
  FetchByUserKey no_ParseIP (store "sessions") "key" no_rows_world
  = (([], None), no_rows_world) /\
  ~ (forall (W : Type) (p : PgStore W) (key : string) (w : W) (e : driver_error),
        fst (select_user_key_call p key w) = inl e ->
        snd (fst (FetchByUserKey no_ParseIP p key w)) = Some (Storage e)).
Proof.
  split; [reflexivity|]. split; [reflexivity|].
  intros H.
  specialize (H pg.world (store "sessions") "key" no_rows_world ErrNoRows eq_refl).
  discriminate H.
Qed.

Lemma DeleteByUserKey_exact_witness :
  exists w',
    DeleteByUserKey (store "sessions") "key" ["id2"] demo_world = (None, w') /\
    pg.tables w' !! "sessions"
    = Some [mkRow 2 40 "id2" "key" None None None;
            mkRow 3 100 "id3" "other" None None None].
Proof.
  destruct (DeleteByUserKey_exact "sessions" "key" ["id2"] demo_world demo_rows)
    as (w' & rows' & Hd & Ht & Hrows & _); [reflexivity | reflexivity | reflexivity |].
  exists w'. split; [exact Hd|]. rewrite Ht, Hrows. reflexivity.
Defined.

(** After [New] on a database without tables or indexes there is a sessions
    table, and its only index is the one of the primary key: none is on the
    expiration column. *)
Lemma New_creates_no_index :
  exists rt w1,
    New pg.handle "sessions" 0 empty_world = (Some rt, None, w1) /\
    pg.tables w1 !! "sessions" = Some [] /\
    pg.indexes w1 = [pg.mkIndex "sessions_pkey" "sessions" "id"] /\
    ~ has_expiration_index "sessions" w1.
Proof.
  eexists _, _. split; [reflexivity|]. split; [reflexivity|]. split; [reflexivity|].
  intros (ix & Hin & _ & Hcol). simpl in Hin.
  apply list_elem_of_singleton in Hin. subst ix. discriminate Hcol.
Qed.

Lemma New_schema_witness :
  snd (New pg.handle "sessions" 300 empty_world)
  = pg.mkWorld {["sessions" := []]} [pg.mkIndex "sessions_pkey" "sessions" "id"] 0
      pg.no_faults /\
  snd (New pg.handle "sessions" 300 demo_world) = demo_world /\
  fst (New pg.handle "sessions" 300 no_rows_world) = (None, Some (Storage ErrNoRows)).
Proof.
  destruct (proj2 New_schema "sessions" 300 empty_world eq_refl eq_refl)
    as (_ & _ & _ & _ & _ & _ & Hnew & _).
  destruct (proj2 New_schema "sessions" 300 demo_world eq_refl eq_refl)
    as (_ & _ & _ & _ & _ & Hold & _).
  split; [rewrite Hnew; reflexivity|]. split; [apply (Hold demo_rows); reflexivity|].
  apply (proj1 New_schema pg.world pg.handle "sessions" 300 no_rows_world ErrNoRows).
  reflexivity.
Defined.


Lemma StopCleanup_unstarted_witness :
  exists rt w1,
    New pg.handle "sessions" 0 empty_world = (Some rt, None, w1) /\
    StopCleanup rt w1 = (rt, w1, Returns).
Proof.
  eexists _, _. split; [reflexivity|].
  destruct (StopCleanup_unstarted pg.world pg.handle "sessions" empty_world _ _ eq_refl)
    as (_ & _ & Hstop & _).
  apply Hstop.
Defined.

Lemma Create_nil_IP_witness :
  exists w1,
    Create (store "sessions") bare_session demo_world = (None, w1) /\
    pg.tables w1 !! "sessions"
    = Some (demo_rows ++ [mkRow 5 100 "id9" "key" None None None]).
Proof.
  destruct (Create_nil_IP "sessions" bare_session demo_world demo_rows)
    as (_ & _ & _ & (w1 & Hc & Ht) & _); [reflexivity | reflexivity | reflexivity | |].
  - by_computation.
  - exists w1. split; [exact Hc | exact Ht].
Defined.

(** * Further properties *)

(** ** The codec of optional fields *)

(** X1. A string written through [setNullString], stored in a nullable
    column and scanned back into a [sql.NullString] is the [NullString] that
    was written: valid with the same text, unless the text is empty or
    [<nil>], in which case it is invalid with empty text. *)
Theorem NullString_through_column :
  forall s : string,
    scanNullString (pg.Value (setNullString s)) = setNullString s /\
    (Valid (setNullString s) = true <-> s <> "" /\ s <> "<nil>") /\
    (Valid (setNullString s) = true -> String_ (setNullString s) = s) /\
    (Valid (setNullString s) = false -> String_ (setNullString s) = "") /\
    String_ (scanNullString (pg.Value (setNullString s))) = through_column s.
Proof.
  intros s. unfold through_column, setNullString, pg.Value, scanNullString.
  destruct (String.eqb_spec s "") as [->|H1]; simpl.
  - repeat split; try discriminate; try tauto.
  - destruct (String.eqb_spec s "<nil>") as [->|H2]; simpl.
    + repeat split; try discriminate; try tauto.
    + rewrite decide_False by tauto. repeat split; try discriminate; auto.
Qed.

(** X2. The older [setNullString] agrees with the current one on every
    string but [<nil>], which it keeps as a valid string: through it the text
    of a nil IP is sent to the database as the five characters [<nil>]. *)
Theorem older_setNullString :
  (forall s : string, s <> "<nil>" -> postgres.setNullString s = setNullString s) /\
  postgres.setNullString (net.String_ []) = mkNullString "<nil>" true /\
  pg.Value (postgres.setNullString (net.String_ [])) = Some "<nil>" /\
  pg.Value (setNullString (net.String_ [])) = None.
Proof.
  split; [|repeat split; reflexivity].
  intros s Hs. unfold postgres.setNullString, setNullString.
  destruct (String.eqb_spec s "") as [->|H1]; [reflexivity|].
  destruct (String.eqb_spec s "<nil>") as [->|H2]; [contradiction | reflexivity].
Qed.

Lemma older_setNullString_witness :
  postgres.setNullString "Firefox" = setNullString "Firefox".
Proof. apply (proj1 older_setNullString). discriminate. Defined.

Section Codec.

Variable ParseIP : string -> net.IP.

Import pgsql pg.

Lemma decode_encode s : decode ParseIP (encode s) = read_back ParseIP s.
Proof.
  unfold decode, encode, read_back, through_column. simpl.
  rewrite !setNullString_Value.
  repeat case_decide; reflexivity.
Qed.


End Codec.


(** ** Deleting by id *)

Section DeletingById.

Import pgsql pg.

Lemma filter_all {A} (P : A -> Prop) `{!forall x, Decision (P x)} (l : list A) :
  (forall x, x ∈ l -> P x) -> filter P l = l.
Proof.
  intros Hall. induction l as [|x l IH]; [reflexivity|].
  rewrite filter_cons_True.
  - f_equal. apply IH. intros y Hy. apply Hall. apply list_elem_of_further. exact Hy.
  - apply Hall. apply list_elem_of_here.
Qed.

Lemma set_tables_same w t rows :
  tables w !! t = Some rows -> set_tables w (<[t := rows]> (tables w)) = w.
Proof. intros Ht. destruct w as [ts ix n f]. unfold set_tables. simpl in *.
       rewrite (insert_id _ _ _ Ht). reflexivity. Qed.

Lemma DeleteByID_store t i w rows :
  valid_ident t = true ->
  tables w !! t = Some rows ->
  on_call (faults w) = None ->
  DeleteByID (store t) i w
  = (None, set_tables w (<[t := filter (fun r => id r <> i) rows]> (tables w))).
Proof.
  intros Hv Ht Hf. unfold DeleteByID. simpl. unfold pg_Exec.
  rewrite (call_parsed _ _ _ _ Hf (parse_delete_id t Hv)).
  simpl. unfold with_table. rewrite Ht. reflexivity.
Qed.

(** X4. On the modelled database, without a fault, [DeleteByID] succeeds
    and leaves in the table exactly the rows whose id is not the given one,
    in their order; other tables and the indexes stay as they were. When no
    row has the id, the call still succeeds and the world is unchanged. *)
Theorem DeleteByID_exact :
  forall (t i : string) (w : world) (rows : list row),
    valid_ident t = true ->
    tables w !! t = Some rows ->
    on_call (faults w) = None ->
    exists (w' : world) (rows' : list row),
      DeleteByID (store t) i w = (None, w') /\
      tables w' !! t = Some rows' /\
      rows' = filter (fun r => id r <> i) rows /\
      (forall r, r ∈ rows' <-> r ∈ rows /\ id r <> i) /\
      (i ∉ map id rows') /\
      (forall t', t' <> t -> tables w' !! t' = tables w !! t') /\
      indexes w' = indexes w /\
      (i ∉ map id rows -> w' = w).
Proof.
  intros t i w rows Hv Ht Hf.
  eexists _, _. split; [apply (DeleteByID_store t i w rows Hv Ht Hf)|].
  split; [simpl; apply lookup_insert_eq|]. split; [reflexivity|].
  split; [intros r; rewrite list_elem_of_filter; tauto|].
  split.
  { intros Hin. apply list_elem_of_fmap in Hin. destruct Hin as (r & Hid & Hr).
    apply list_elem_of_filter in Hr. destruct Hr as [Hne _]. congruence. }
  split; [intros t' Hne; simpl; apply lookup_insert_ne; congruence|].
  split; [reflexivity|].
  intros Hmiss. rewrite filter_all.
  - apply set_tables_same. exact Ht.
  - intros r Hr Hid. apply Hmiss. rewrite <- Hid.
    apply list_elem_of_fmap. exists r. auto.
Qed.

Lemma DeleteByID_exact_witness :
  exists w',
    DeleteByID (store "sessions") "id2" demo_world = (None, w') /\
    tables w' !! "sessions"
    = Some [mkRow 1 100 "id1" "key" None (Some "GNU/Linux") (Some "Firefox");
            mkRow 3 100 "id3" "other" None None None] /\
    DeleteByID (store "sessions") "nobody" demo_world = (None, demo_world).
Proof.
  destruct (DeleteByID_exact "sessions" "id2" demo_world demo_rows)
    as (w' & rows' & Hd & Ht & Hrows & _); [reflexivity | reflexivity | reflexivity |].
  destruct (DeleteByID_exact "sessions" "nobody" demo_world demo_rows)
    as (w2 & rows2 & Hd2 & _ & _ & _ & _ & _ & _ & Hsame);
    [reflexivity | reflexivity | reflexivity |].
  exists w'. split; [exact Hd|]. split; [rewrite Ht, Hrows; reflexivity|].
  rewrite Hd2, Hsame; [reflexivity | by_computation].
Defined.

(** X5. On the modelled database, without a fault, creating a session under
    a new id and then deleting that id gives back the world as it was before
    the session was created. *)
Theorem Create_DeleteByID_restores :
  forall (t : string) (s : Session) (w : world) (rows : list row),
    valid_ident t = true ->
    tables w !! t = Some rows ->
    on_call (faults w) = None ->
    ID s ∉ map id rows ->
    fst (Create (store t) s w) = None /\
    DeleteByID (store t) (ID s) (snd (Create (store t) s w)) = (None, w).
Proof.
  intros t s w rows Hv Ht Hf Hfresh.
  rewrite (Create_store_fresh t s w rows Hv Ht Hf Hfresh). simpl.
  split; [reflexivity|].
  rewrite (DeleteByID_store t (ID s) _ (rows ++ [encode s]) Hv);
    [| simpl; apply lookup_insert_eq | exact Hf].
  f_equal. unfold set_tables. simpl. rewrite insert_insert_eq.
  rewrite filter_app, filter_all.
  - rewrite filter_singleton_False; [| exact [] | intros H; apply H; reflexivity].
    rewrite app_nil_r. apply (set_tables_same w t rows Ht).
  - intros r Hr Hid. apply Hfresh. rewrite <- Hid.
    apply list_elem_of_fmap. exists r. auto.
Qed.

Lemma Create_DeleteByID_restores_witness :
  DeleteByID (store "sessions") "id9"
    (snd (Create (store "sessions") bare_session demo_world))
  = (None, demo_world).
Proof.
  apply (Create_DeleteByID_restores "sessions" bare_session demo_world demo_rows);
    [reflexivity | reflexivity | reflexivity | by_computation].
Defined.

End DeletingById.

(** ** What every call keeps *)

Section Invariant.

Variable ParseIP : string -> net.IP.

Import pgsql pg.

Lemma unique_ids_insert w t rows :
  unique_ids w -> NoDup (map id rows) ->
  unique_ids (set_tables w (<[t := rows]> (tables w))).
Proof.
  intros Hu Hn t' rows'. simpl. rewrite lookup_insert.
  case_decide; [intros [= <-]; exact Hn | apply Hu].
Qed.

Lemma NoDup_ids_filter (P : row -> Prop) `{!forall r, Decision (P r)} rows :
  NoDup (map id rows) -> NoDup (map id (filter P rows)).
Proof.
  intros Hn. apply (sublist_NoDup _ _ Hn).
  apply fmap_sublist, sublist_filter.
Qed.

Lemma run_unique_ids st args w rs w' :
  unique_ids w -> run st args w = inr (rs, w') -> unique_ids w'.
Proof.
  intros Hu. unfold run, with_table, delete_where.
  destruct st as [t cols|name t col|t|t|t|t|t|t|t].
  - case_decide; [|discriminate]. destruct args; [|discriminate].
    destruct (tables w !! t) eqn:Ht; intros [= <- <-]; [exact Hu|].
    intros t' rows'. simpl. rewrite lookup_insert.
    case_decide; [intros [= <-]; constructor | apply Hu].
  - destruct args; [|discriminate]. destruct (tables w !! t); [|discriminate].
    repeat case_decide; try discriminate. intros [= <- <-]. exact Hu.
  - destruct (bind_insert args) as [r|]; [|discriminate].
    destruct (tables w !! t) as [rows|] eqn:Ht; [|discriminate].
    case_decide as Hin; [discriminate|]. intros [= <- <-].
    apply unique_ids_insert; [exact Hu|].
    rewrite map_app. apply NoDup_app. split; [apply (Hu t rows Ht)|]. split.
    + intros x Hx Hx'. simpl in Hx'. apply list_elem_of_singleton in Hx'. subst x.
      exact (Hin Hx).
    + apply NoDup_singleton.
  - destruct args as [|[] [|]]; try discriminate.
    destruct (tables w !! t); [|discriminate]. intros [= <- <-]. exact Hu.
  - destruct args as [|[] [|]]; try discriminate.
    destruct (tables w !! t); [|discriminate]. intros [= <- <-]. exact Hu.
  - destruct args as [|[] [|]]; try discriminate.
    destruct (tables w !! t) as [rows|] eqn:Ht; [|discriminate]. intros [= <- <-].
    apply unique_ids_insert; [exact Hu|]. apply NoDup_ids_filter, (Hu t rows Ht).
  - destruct args as [|[] [|[] [|]]]; try discriminate.
    destruct (tables w !! t) as [rows|] eqn:Ht; [|discriminate]. intros [= <- <-].
    apply unique_ids_insert; [exact Hu|]. apply NoDup_ids_filter, (Hu t rows Ht).
  - destruct args as [|[] [|]]; try discriminate.
    destruct (tables w !! t) as [rows|] eqn:Ht; [|discriminate]. intros [= <- <-].
    apply unique_ids_insert; [exact Hu|]. apply NoDup_ids_filter, (Hu t rows Ht).
  - destruct args; [|discriminate].
    destruct (tables w !! t) as [rows|] eqn:Ht; [|discriminate]. intros [= <- <-].
    apply unique_ids_insert; [exact Hu|]. apply NoDup_ids_filter, (Hu t rows Ht).
Qed.

Lemma call_unique_ids q args w :
  unique_ids w ->
  match call q args w with
  | inl _ => True
  | inr (_, w') => unique_ids w'
  end.
Proof.
  intros Hu. unfold call. destruct (on_call (faults w)); [exact I|].
  destruct (parse q) as [st|]; [|exact I].
  destruct (run st args w) as [e|[rs w']] eqn:Hr; [exact I|].
  apply (run_unique_ids st args w rs w' Hu Hr).
Qed.

Lemma Exec_unique_ids q args w :
  unique_ids w -> unique_ids (snd (Exec handle q args w)).
Proof.
  intros Hu. simpl. unfold pg_Exec. pose proof (call_unique_ids q args w Hu) as H.
  destruct (call q args w) as [e|[rs w']]; simpl; [exact Hu | exact H].
Qed.

Lemma Query_unique_ids q args w :
  unique_ids w -> unique_ids (snd (Query handle q args w)).
Proof.
  intros Hu. simpl. unfold pg_Query. pose proof (call_unique_ids q args w Hu) as H.
  destruct (call q args w) as [e|[rs w']]; simpl; [exact Hu | exact H].
Qed.

Lemma FetchByID_world {W} (p : PgStore W) i w :
  snd (FetchByID ParseIP p i w) = snd (select_id_call p i w).
Proof.
  unfold FetchByID. fold (select_id_call p i w).
  destruct (select_id_call p i w) as [[[| |]|r] w']; reflexivity.
Qed.

Lemma deleteExpired_unique_ids t w :
  unique_ids w -> unique_ids (snd (deleteExpired (store t) w)).
Proof.
  intros Hu. rewrite deleteExpired_fault. simpl snd. apply Exec_unique_ids, Hu.
Qed.

(** X6. On the modelled database the ids of every table stay pairwise
    different: whatever the table name, the arguments and the injected
    faults, no operation of the store, successful or failed, and no step of
    the cleanup goroutine leads from a world with unique ids to one
    without. *)
Theorem unique_ids_kept :
  forall (t : string) (w : world),
    unique_ids w ->
    (forall d, unique_ids (snd (New handle t d w))) /\
    (forall s, unique_ids (snd (Create (store t) s w))) /\
    (forall i, unique_ids (snd (FetchByID ParseIP (store t) i w))) /\
    (forall key, unique_ids (snd (FetchByUserKey ParseIP (store t) key w))) /\
    (forall i, unique_ids (snd (DeleteByID (store t) i w))) /\
    (forall key expID, unique_ids (snd (DeleteByUserKey (store t) key expID w))) /\
    unique_ids (snd (deleteExpired (store t) w)) /\
    (forall g ev rt' w' obs,
        startCleanup_step (mkRuntime world (store t) g) ev w = Some (rt', w', obs) ->
        unique_ids w').
Proof.
  intros t w Hu.
  split; [intros d; rewrite New_unfold;
          pose proof (Exec_unique_ids (Sprintf table t) [] w Hu) as H;
          destruct (fst (Exec handle (Sprintf table t) [] w)); exact H|].
  split; [intros s; rewrite Create_classifies; apply Exec_unique_ids, Hu|].
  split.
  { intros i. rewrite FetchByID_world. unfold select_id_call, QueryRowScan.
    pose proof (Query_unique_ids
                  (Sprintf "SELECT * FROM %s WHERE id = $1 AND expires_at > CURRENT_TIMESTAMP;"
                     (tName (store t))) [ArgText i] w Hu) as H.
    destruct (Query _ _ _ w) as [[e|rr] w']; simpl in *; [exact H|].
    destruct (rows_scan rr); [destruct (rows_err rr)|]; exact H. }
  split.
  { intros key. rewrite FetchByUserKey_unfold. unfold select_user_key_call.
    pose proof (Query_unique_ids (Sprintf "SELECT * FROM %s WHERE user_key = $1;"
                                    (tName (store t))) [ArgText key] w Hu) as H.
    destruct (Query _ _ _ w) as [[[| |]|rr] w']; simpl in *; try exact H.
    destruct (fetchLoop _ _ _); [|destruct (rows_err rr)]; exact H. }
  split.
  { intros i. unfold DeleteByID.
    pose proof (Exec_unique_ids (Sprintf "DELETE FROM %s WHERE id = $1;" (tName (store t)))
                  [ArgText i] w Hu) as H.
    destruct (Exec _ _ _ w). exact H. }
  split.
  { intros key expID. unfold DeleteByUserKey. destruct (0 <? length expID)%nat.
    - pose proof (Exec_unique_ids
                    (Sprintf "DELETE FROM %s WHERE user_key = $1 AND id != ALL ($2);"
                       (tName (store t))) ([ArgText key] ++ [ArgArray expID]) w Hu) as H.
      destruct (Exec _ _ _ w). exact H.
    - pose proof (Exec_unique_ids (Sprintf "DELETE FROM %s WHERE user_key = $1;"
                                     (tName (store t))) [ArgText key] w Hu) as H.
      destruct (Exec _ _ _ w). exact H. }
  split; [apply deleteExpired_unique_ids, Hu|].
  intros g ev rt' w' obs. unfold startCleanup_step. simpl.
  pose proof (deleteExpired_unique_ids t w Hu) as H.
  destruct g, ev; try discriminate.
  - intros [= _ <- _]. exact Hu.
  - destruct (deleteExpired (store t) w) as [[e|] w1]; intros [= _ <- _]; exact H.
  - intros [= _ <- _]. exact Hu.
  - intros [= _ <- _]. exact Hu.
Qed.

End Invariant.

Lemma unique_ids_kept_witness :
  unique_ids (snd (Create (store "sessions") bare_session demo_world)) /\
  unique_ids (snd (DeleteByUserKey (store "sessions") "key" ["id2"] demo_world)).
Proof.
  assert (Hdemo : unique_ids demo_world).
  { intros t rows H. simpl in H. apply lookup_singleton_Some in H.
    destruct H as [_ <-]. by_computation. }
  destruct (unique_ids_kept no_ParseIP "sessions" demo_world Hdemo)
    as (_ & Hc & _ & _ & _ & Hd & _).
  split; [apply Hc | apply Hd].
Defined.

(** ** Reading *)

Section Reading.

Variable ParseIP : string -> net.IP.

Import pgsql pg.

Lemma parse_select_shape r :
  parse_select r = None \/
  exists t, parse_select r = Some (SelectActiveById t) \/
            parse_select r = Some (SelectByUserKey t).
Proof.
  unfold parse_select. destruct (scan_ident r) as [t rest].
  destruct (valid_ident t); [|left; reflexivity].
  destruct (String.eqb rest _); [right; exists t; left; reflexivity|].
  destruct (String.eqb rest _); [right; exists t; right; reflexivity|].
  left. reflexivity.
Qed.

Lemma select_call_keeps_world r args w rs w' :
  call ("SELECT * FROM " +:+ r) args w = inr (rs, w') -> w' = w.
Proof.
  unfold call. destruct (on_call (faults w)); [discriminate|].
  replace (parse ("SELECT * FROM " +:+ r)) with (parse_select r) by reflexivity.
  destruct (parse_select_shape r) as [-> | (t & [-> | ->])]; [discriminate| |].
  - simpl. unfold with_table. destruct args as [|[] [|]]; try discriminate.
    destruct (tables w !! t); [|discriminate]. intros [= _ <-]. reflexivity.
  - simpl. unfold with_table. destruct args as [|[] [|]]; try discriminate.
    destruct (tables w !! t); [|discriminate]. intros [= _ <-]. reflexivity.
Qed.

Lemma select_Query_keeps_world r args w :
  snd (Query handle ("SELECT * FROM " +:+ r) args w) = w.
Proof.
  simpl. unfold pg_Query.
  destruct (call ("SELECT * FROM " +:+ r) args w) as [e|[rs w']] eqn:Hc; [reflexivity|].
  simpl. apply (select_call_keeps_world r args w rs w' Hc).
Qed.

(** X7. On the modelled database [FetchByID] and [FetchByUserKey] leave
    the world as it is, whatever the table name, the id or key, the clock
    and the injected faults. *)
Theorem fetches_keep_world :
  forall (t x : string) (w : world),
    snd (FetchByID ParseIP (store t) x w) = w /\
    snd (FetchByUserKey ParseIP (store t) x w) = w.
Proof.
  intros t x w. split.
  - rewrite FetchByID_world. unfold select_id_call, QueryRowScan.
    pose proof (select_Query_keeps_world
                  (t +:+ " WHERE id = $1 AND expires_at > CURRENT_TIMESTAMP;")
                  [ArgText x] w) as H.
    change (Sprintf "SELECT * FROM %s WHERE id = $1 AND expires_at > CURRENT_TIMESTAMP;"
              (tName (store t)))
      with ("SELECT * FROM " +:+ t +:+ " WHERE id = $1 AND expires_at > CURRENT_TIMESTAMP;").
    change (db (store t)) with handle.
    destruct (Query handle _ _ w) as [[e|rr] w']; simpl in *; [exact H|].
    destruct (rows_scan rr); [destruct (rows_err rr)|]; exact H.
  - rewrite FetchByUserKey_unfold. unfold select_user_key_call.
    pose proof (select_Query_keeps_world (t +:+ " WHERE user_key = $1;") [ArgText x] w) as H.
    change (Sprintf "SELECT * FROM %s WHERE user_key = $1;" (tName (store t)))
      with ("SELECT * FROM " +:+ t +:+ " WHERE user_key = $1;").
    change (db (store t)) with handle.
    destruct (Query handle _ _ w) as [[[| |]|rr] w']; simpl in *; try exact H.
    destruct (fetchLoop _ _ _); [|destruct (rows_err rr)]; exact H.
Qed.

Lemma filter_the_row (P : row -> Prop) `{!forall r, Decision (P r)} rows r :
  NoDup (map id rows) -> r ∈ rows -> P r ->
  filter (fun x => id x = id r /\ P x) rows = [r].
Proof.
  intros Hn Hr HP. induction rows as [|x rows IH]; [inversion Hr|].
  simpl in Hn. apply NoDup_cons in Hn. destruct Hn as [Hx Hn].
  apply elem_of_cons in Hr. destruct Hr as [<- | Hr].
  - rewrite filter_cons_True by (split; [reflexivity | exact HP]).
    f_equal. apply filter_none. intros y Hy [Hid _]. apply Hx. rewrite <- Hid.
    apply list_elem_of_fmap. exists y. auto.
  - rewrite filter_cons_False; [apply (IH Hn Hr)|].
    intros [Hid _]. apply Hx. rewrite Hid. apply list_elem_of_fmap. exists r. auto.
Qed.

(** X8. On the modelled database, without faults, in a table whose ids are
    pairwise different, [FetchByID] of the id of a stored row whose
    [expires_at] is later than the server's clock returns that very row,
    decoded. *)
Theorem FetchByID_the_row :
  forall (t : string) (w : world) (rows : list row) (r : row),
    valid_ident t = true ->
    tables w !! t = Some rows ->
    faults w = no_faults ->
    NoDup (map id rows) ->
    r ∈ rows ->
    now w < expires_at r ->
    FetchByID ParseIP (store t) (id r) w = ((decode ParseIP r, true, None), w).
Proof.
  intros t w rows r Hv Ht Hf Hn Hr Ha.
  rewrite (FetchByID_store ParseIP t (id r) w rows Hv Ht Hf).
  rewrite (filter_the_row (fun x => now w < expires_at x) rows r Hn Hr Ha). reflexivity.
Qed.

(** X9. On the modelled database, without faults, a session [FetchByID]
    finds carries the id asked for and is among the sessions
    [FetchByUserKey] returns for its user key. *)
Theorem FetchByID_among_FetchByUserKey :
  forall (t i : string) (w : world) (rows : list row) (s : Session),
    valid_ident t = true ->
    tables w !! t = Some rows ->
    faults w = no_faults ->
    fst (FetchByID ParseIP (store t) i w) = (s, true, None) ->
    ID s = i /\
    s ∈ fst (fst (FetchByUserKey ParseIP (store t) (UserKey s) w)).
Proof.
  intros t i w rows s Hv Ht Hf.
  rewrite (FetchByID_store ParseIP t i w rows Hv Ht Hf).
  rewrite (FetchByUserKey_store ParseIP t (UserKey s) w rows Hv Ht Hf). simpl.
  destruct (filter _ rows) as [|r rest] eqn:E; [discriminate|].
  intros [= <-].
  assert (Hin : r ∈ filter (fun r => id r = i /\ now w < expires_at r) rows)
    by (rewrite E; apply list_elem_of_here).
  apply list_elem_of_filter in Hin. destruct Hin as [[Hid _] Hr].
  split; [exact Hid|].
  apply list_elem_of_fmap. exists r. split; [reflexivity|].
  apply list_elem_of_filter. split; [reflexivity | exact Hr].
Qed.

End Reading.

Lemma FetchByID_the_row_witness :
  FetchByID no_ParseIP (store "sessions") "id1" demo_world
  = ((mkSession 1 100 "id1" "key" [] (mkAgent "GNU/Linux" "Firefox"), true, None),
     demo_world).
Proof.
  apply (FetchByID_the_row no_ParseIP "sessions" demo_world demo_rows
           (mkRow 1 100 "id1" "key" None (Some "GNU/Linux") (Some "Firefox")));
    [reflexivity | reflexivity | reflexivity | by_computation | by_computation
    | simpl; lia].
Defined.

Lemma FetchByID_among_FetchByUserKey_witness :
  mkSession 1 100 "id1" "key" [] (mkAgent "GNU/Linux" "Firefox")
  ∈ fst (fst (FetchByUserKey no_ParseIP (store "sessions") "key" demo_world)).
Proof.
  apply (FetchByID_among_FetchByUserKey no_ParseIP "sessions" "id1" demo_world demo_rows
           (mkSession 1 100 "id1" "key" [] (mkAgent "GNU/Linux" "Firefox")));
    reflexivity.
Defined.

(** ** How the operations compose *)

Section Composing.

Variable ParseIP : string -> net.IP.

Import pgsql pg.

(** X10. On the modelled database, without a fault, a sweep is invisible to
    [FetchByID]: at the sweep's clock or any later one, [FetchByID] returns
    for every id what it would have returned had the sweep not run. A row
    that expires exactly at the clock survives the sweep although
    [FetchByID] no longer finds it, and a second sweep at the same clock
    changes nothing. *)
Theorem sweep_invisible_to_FetchByID :
  forall (t : string) (w : world) (rows : list row) (t2 : Time),
    valid_ident t = true ->
    tables w !! t = Some rows ->
    on_call (faults w) = None ->
    now w <= t2 ->
    (forall i,
        fst (FetchByID ParseIP (store t) i
               (set_env (snd (deleteExpired (store t) w)) t2 no_faults))
        = fst (FetchByID ParseIP (store t) i (set_env w t2 no_faults))) /\
    (forall r, r ∈ rows -> expires_at r = now w ->
               r ∈ default [] (tables (snd (deleteExpired (store t) w)) !! t) /\
               ~ active (now w) r) /\
    deleteExpired (store t) (snd (deleteExpired (store t) w))
    = (None, snd (deleteExpired (store t) w)).
Proof.
  intros t w rows t2 Hv Ht Hf Hle.
  rewrite (deleteExpired_store t w rows Hv Ht Hf). simpl snd.
  split; [|split].
  - intros i.
    rewrite (FetchByID_store ParseIP t i _ (filter (fun r => ~ expires_at r < now w) rows) Hv);
      [| simpl; apply lookup_insert_eq | reflexivity].
    rewrite (FetchByID_store ParseIP t i _ rows Hv); [| exact Ht | reflexivity].
    simpl. rewrite list_filter_filter.
    rewrite (list_filter_iff _ (fun r => id r = i /\ t2 < expires_at r)); [reflexivity|].
    intros r. split; [tauto|]. intros [Hi Ha]. split; [tauto | lia].
  - intros r Hr He. simpl. rewrite lookup_insert_eq. simpl. split.
    + apply list_elem_of_filter. split; [lia | exact Hr].
    + unfold active. lia.
  - rewrite (deleteExpired_store t _ (filter (fun r => ~ expires_at r < now w) rows) Hv);
      [| simpl; apply lookup_insert_eq | exact Hf].
    f_equal. unfold set_tables. simpl. rewrite insert_insert_eq. do 2 f_equal.
    rewrite list_filter_filter. apply list_filter_iff. intros r. tauto.
Qed.

(** X11. On the modelled database, without faults, after
    [DeleteByUserKey] the sessions [FetchByUserKey] returns for that key are
    exactly the excepted ones that were stored under it, in their order, so
    none when the exception list is empty; for any other key
    [FetchByUserKey] returns what it returned before. *)
Theorem DeleteByUserKey_then_FetchByUserKey :
  forall (t key : string) (expID : list string) (w : world) (rows : list row),
    valid_ident t = true ->
    tables w !! t = Some rows ->
    faults w = no_faults ->
    fst (FetchByUserKey ParseIP (store t) key
           (snd (DeleteByUserKey (store t) key expID w)))
    = (map (decode ParseIP) (filter (fun r => user_key r = key /\ id r ∈ expID) rows), None) /\
    (expID = [] ->
     fst (FetchByUserKey ParseIP (store t) key
            (snd (DeleteByUserKey (store t) key expID w))) = ([], None)) /\
    (forall key', key' <> key ->
        fst (FetchByUserKey ParseIP (store t) key'
               (snd (DeleteByUserKey (store t) key expID w)))
        = fst (FetchByUserKey ParseIP (store t) key' w)).
Proof.
  intros t key expID w rows Hv Ht Hf.
  assert (Hcall : on_call (faults w) = None) by (rewrite Hf; reflexivity).
  rewrite (DeleteByUserKey_store t key expID w rows Hv Ht Hcall). simpl snd.
  assert (Hfetch : forall k,
             fst (FetchByUserKey ParseIP (store t) k
                    (set_tables w
                       (<[t := filter (fun r => ~ (user_key r = key /\ id r ∉ expID)) rows]>
                          (tables w))))
             = (map (decode ParseIP)
                  (filter (fun r => user_key r = k /\ ~ (user_key r = key /\ id r ∉ expID)) rows),
                None)).
  { intros k.
    rewrite (FetchByUserKey_store ParseIP t k _
               (filter (fun r => ~ (user_key r = key /\ id r ∉ expID)) rows) Hv);
      [| simpl; apply lookup_insert_eq | exact Hf].
    simpl. rewrite list_filter_filter. reflexivity. }
  assert (Hkey : filter (fun r => user_key r = key /\ ~ (user_key r = key /\ id r ∉ expID)) rows
                 = filter (fun r => user_key r = key /\ id r ∈ expID) rows).
  { apply list_filter_iff. intros r.
    destruct (decide (id r ∈ expID)); tauto. }
  split; [|split].
  - rewrite Hfetch, Hkey. reflexivity.
  - intros ->. rewrite Hfetch, Hkey, filter_none; [reflexivity|].
    intros r _ [_ Hin]. apply elem_of_nil in Hin. exact Hin.
  - intros key' Hne. rewrite Hfetch.
    rewrite (FetchByUserKey_store ParseIP t key' w rows Hv Ht Hf). simpl.
    do 2 f_equal. apply list_filter_iff. intros r. split; [tauto|].
    intros Hk. split; [exact Hk|]. intros [Hk' _]. congruence.
Qed.

(** X12. On the modelled database, without faults, after a session is
    created under a new id, [FetchByUserKey] for its user key returns what it
    returned before followed by that session as it reads back, and for any
    other key what it returned before. *)
Theorem Create_then_FetchByUserKey :
  forall (t : string) (s : Session) (w : world) (rows : list row),
    valid_ident t = true ->
    tables w !! t = Some rows ->
    faults w = no_faults ->
    ID s ∉ map id rows ->
    fst (FetchByUserKey ParseIP (store t) (UserKey s) (snd (Create (store t) s w)))
    = (fst (fst (FetchByUserKey ParseIP (store t) (UserKey s) w)) ++ [read_back ParseIP s],
       None) /\
    (forall key, key <> UserKey s ->
        fst (FetchByUserKey ParseIP (store t) key (snd (Create (store t) s w)))
        = fst (FetchByUserKey ParseIP (store t) key w)).
Proof.
  intros t s w rows Hv Ht Hf Hfresh.
  assert (Hcall : on_call (faults w) = None) by (rewrite Hf; reflexivity).
  rewrite (Create_store_fresh t s w rows Hv Ht Hcall Hfresh). simpl snd.
  assert (Hfetch : forall k,
             fst (FetchByUserKey ParseIP (store t) k
                    (set_tables w (<[t := rows ++ [encode s]]> (tables w))))
             = (map (decode ParseIP) (filter (fun r => user_key r = k) (rows ++ [encode s])),
                None)).
  { intros k.
    rewrite (FetchByUserKey_store ParseIP t k _ (rows ++ [encode s]) Hv);
      [reflexivity | simpl; apply lookup_insert_eq | exact Hf]. }
  split.
  - rewrite Hfetch, (FetchByUserKey_store ParseIP t (UserKey s) w rows Hv Ht Hf). simpl.
    rewrite filter_app, map_app.
    rewrite (filter_singleton_True _ (encode s)); [| exact [] | reflexivity].
    simpl. rewrite decode_encode. reflexivity.
  - intros key Hne.
    rewrite Hfetch, (FetchByUserKey_store ParseIP t key w rows Hv Ht Hf). simpl.
    rewrite filter_app.
    rewrite (filter_singleton_False _ (encode s)); [| exact [] | simpl; congruence].
    rewrite app_nil_r. reflexivity.
Qed.

End Composing.

Lemma sweep_invisible_to_FetchByID_witness :
  fst (FetchByID no_ParseIP (store "sessions") "id2"
         (pg.set_env (snd (deleteExpired (store "sessions") demo_world)) 60 pg.no_faults))
  = fst (FetchByID no_ParseIP (store "sessions") "id2"
           (pg.set_env demo_world 60 pg.no_faults)).
Proof.
  destruct (sweep_invisible_to_FetchByID no_ParseIP "sessions" demo_world demo_rows 60)
    as (H & _); [reflexivity | reflexivity | reflexivity | simpl; lia |].
  apply H.
Defined.

Lemma DeleteByUserKey_then_FetchByUserKey_witness :
  fst (FetchByUserKey no_ParseIP (store "sessions") "key"
         (snd (DeleteByUserKey (store "sessions") "key" ["id2"] demo_world)))
  = ([mkSession 2 40 "id2" "key" [] (mkAgent "" "")], None).
Proof.
  destruct (DeleteByUserKey_then_FetchByUserKey no_ParseIP "sessions" "key" ["id2"]
              demo_world demo_rows) as (H & _); [reflexivity | reflexivity | reflexivity |].
  rewrite H. reflexivity.
Defined.

Lemma Create_then_FetchByUserKey_witness :
  fst (FetchByUserKey no_ParseIP (store "sessions") "key"
         (snd (Create (store "sessions") bare_session demo_world)))
  = ([mkSession 1 100 "id1" "key" [] (mkAgent "GNU/Linux" "Firefox");
      mkSession 2 40 "id2" "key" [] (mkAgent "" "");
      bare_session], None).
Proof.
  destruct (Create_then_FetchByUserKey no_ParseIP "sessions" bare_session demo_world
              demo_rows) as (H & _);
    [reflexivity | reflexivity | reflexivity | by_computation |].
  etransitivity; [exact H | reflexivity].
Defined.

(** ** The life of the cleanup goroutine *)

Section Lifetime.

Context {W : Type}.

Lemma history_disabled (rt : runtime W) (ins : list (@input W)) :
  (forall e w, Ev e ∈ ins -> startCleanup_step rt e w = None) ->
  forall w, history ins rt w = (rt, env_only ins w, []).
Proof.
  induction ins as [|[e|f] ins IH]; intros Hdis w; simpl.
  - reflexivity.
  - rewrite (Hdis e w) by apply list_elem_of_here.
    apply IH. intros e' w' Hin. apply Hdis. apply list_elem_of_further. exact Hin.
  - apply IH. intros e' w' Hin. apply Hdis. apply list_elem_of_further. exact Hin.
Qed.

(** X13. A store built by [New] with a zero or negative interval never
    cleans up by itself: over any history no sweep runs, nothing is
    delivered, the store stays as it is, and the world changes only by what
    others do to it. *)
Theorem no_cleanup_without_interval :
  forall (db_ : sqlDB W) (t : string) (d : Duration) (w w1 : W) (rt : runtime W),
    New db_ t d w = (Some rt, None, w1) ->
    d <= 0 ->
    cleanup rt = NotStarted /\
    forall (ins : list (@input W)) (w2 : W),
      history ins rt w2 = (rt, env_only ins w2, []).
Proof.
  intros db_ t d w w1 rt H Hd. rewrite New_unfold in H.
  destruct (fst (Exec db_ (Sprintf table t) [] w)); [discriminate|].
  destruct (0 <? d) eqn:E; [apply Z.ltb_lt in E; lia|].
  injection H as <- _. split; [reflexivity|].
  intros ins w2. apply history_disabled. intros e w' _. reflexivity.
Qed.

(** X14. [StopCleanup] on a store whose goroutine waits in its [select]
    returns with the goroutine finished. From then on no history makes it
    sweep again, and a second [StopCleanup] finds [stopChan] made and nobody
    to receive: it blocks. *)
Theorem StopCleanup_is_final :
  forall (rt : runtime W) (d : Duration) (w : W),
    stopChan (self rt) = chan_made ->
    cleanup rt = Selecting d ->
    StopCleanup rt w = (mkRuntime W (self rt) Returned, w, Returns) /\
    (forall (ins : list (@input W)) (w2 : W),
        history ins (mkRuntime W (self rt) Returned) w2
        = (mkRuntime W (self rt) Returned, env_only ins w2, [])) /\
    (forall w2, StopCleanup (mkRuntime W (self rt) Returned) w2
                = (mkRuntime W (self rt) Returned, w2, Blocks)).
Proof.
  intros rt d w Hc Hs. split; [|split].
  - unfold StopCleanup, startCleanup_step. rewrite Hc, Hs. reflexivity.
  - intros ins w2. apply history_disabled. intros e w' _. reflexivity.
  - intros w2. unfold StopCleanup. simpl. rewrite Hc. reflexivity.
Qed.

(** X15. A store built by [New] with a positive interval has its
    [stopChan] still nil until the goroutine has entered [startCleanup]. A
    [StopCleanup] that comes before that returns at once and stops nothing:
    the goroutine then starts, makes [stopChan], and sweeps at the next
    tick. *)
Theorem StopCleanup_before_start :
  forall (db_ : sqlDB W) (t : string) (d : Duration) (w w1 : W) (rt : runtime W),
    New db_ t d w = (Some rt, None, w1) ->
    0 < d ->
    stopChan (self rt) = chan_nil /\
    cleanup rt = Ready d /\
    (forall w2, StopCleanup rt w2 = (rt, w2, Returns)) /\
    (forall w2,
        history [Ev EvRun; Ev EvTick] (fst (fst (StopCleanup rt w2))) w2
        = (mkRuntime W (set_stopChan (self rt) chan_made)
             (match fst (deleteExpired (self rt) w2) with
              | Some e => Sending d e
              | None => Selecting d
              end),
           snd (deleteExpired (self rt) w2),
           [Swept (fst (deleteExpired (self rt) w2))])).
Proof.
  intros db_ t d w w1 rt H Hd. rewrite New_unfold in H.
  destruct (fst (Exec db_ (Sprintf table t) [] w)); [discriminate|].
  destruct (0 <? d) eqn:E; [|apply Z.ltb_ge in E; lia].
  injection H as <- _.
  split; [reflexivity|]. split; [reflexivity|]. split; [reflexivity|].
  intros w2. simpl. unfold startCleanup_step, deleteExpired, set_stopChan. simpl.
  destruct (Exec db_ _ [] w2) as [[e|] w3]; reflexivity.
Qed.

(** X16. While the goroutine waits to send an error, nothing but the host's
    receive moves it: over any history without that receive no sweep runs,
    whatever the ticks, the goroutine keeps waiting with the same error, and
    [StopCleanup] blocks. *)
Theorem undrained_error_stalls :
  forall (p : PgStore W) (d : Duration) (e : error) (ins : list (@input W)) (w : W),
    stopChan p = chan_made ->
    no_drain ins = true ->
    history ins (mkRuntime W p (Sending d e)) w
    = (mkRuntime W p (Sending d e), env_only ins w, []) /\
    StopCleanup (mkRuntime W p (Sending d e)) w = (mkRuntime W p (Sending d e), w, Blocks).
Proof.
  intros p d e ins w Hc Hnd. split.
  - apply history_disabled. intros ev w' Hin.
    unfold no_drain in Hnd. rewrite forallb_forall in Hnd.
    apply list_elem_of_In in Hin. specialize (Hnd _ Hin).
    destruct ev; try reflexivity. discriminate Hnd.
  - unfold StopCleanup. simpl. rewrite Hc. reflexivity.
Qed.

End Lifetime.

Lemma no_cleanup_without_interval_witness :
  exists rt w1,
    New pg.handle "sessions" (-3) empty_world = (Some rt, None, w1) /\
    history [Ev EvRun; Ev EvTick; Ev EvTick] rt w1 = (rt, w1, []).
Proof.
  eexists _, _. split; [reflexivity|].
  destruct (no_cleanup_without_interval pg.handle "sessions" (-3) empty_world _ _ eq_refl)
    as [_ H]; [lia|].
  apply (H [Ev EvRun; Ev EvTick; Ev EvTick]).
Defined.

Lemma StopCleanup_is_final_witness :
  StopCleanup (mkRuntime pg.world (set_stopChan (store "sessions") chan_made) (Selecting 5))
    demo_world
  = (mkRuntime pg.world (set_stopChan (store "sessions") chan_made) Returned,
     demo_world, Returns).
Proof.
  apply (StopCleanup_is_final
           (mkRuntime pg.world (set_stopChan (store "sessions") chan_made) (Selecting 5))
           5 demo_world eq_refl eq_refl).
Defined.

Lemma StopCleanup_before_start_witness :
  exists rt w1,
    New pg.handle "sessions" 5 empty_world = (Some rt, None, w1) /\
    StopCleanup rt w1 = (rt, w1, Returns) /\
    cleanup rt = Ready 5.
Proof.
  eexists _, _. split; [reflexivity|].
  destruct (StopCleanup_before_start pg.handle "sessions" 5 empty_world _ _ eq_refl)
    as (_ & Hready & Hstop & _); [lia|].
  split; [apply Hstop | exact Hready].
Defined.

Lemma undrained_error_stalls_witness :
  history [Ev EvTick; Env (fun w => pg.set_env w 70 pg.no_faults); Ev EvTick]
    (mkRuntime pg.world (set_stopChan (store "sessions") chan_made)
       (Sending 5 (Storage ErrNoRows))) demo_world
  = (mkRuntime pg.world (set_stopChan (store "sessions") chan_made)
       (Sending 5 (Storage ErrNoRows)),
     pg.set_env demo_world 70 pg.no_faults, []).
Proof.
  apply (undrained_error_stalls (set_stopChan (store "sessions") chan_made) 5
           (Storage ErrNoRows)
           [Ev EvTick; Env (fun w => pg.set_env w 70 pg.no_faults); Ev EvTick]
           demo_world eq_refl eq_refl).
Defined.

(** ** A table that was never created *)

Section MissingTable.

Variable ParseIP : string -> net.IP.

Import pgsql pg.

(** X17. On the modelled database, without a fault, when the store's table
    does not exist every operation fails with the driver's undefined-table
    error and leaves the world as it is: [Create] does not report a
    duplicate, [FetchByID] reports the error rather than "not found", and
    [FetchByUserKey] reports it rather than an empty result. *)
Theorem missing_table_is_an_error :
  forall (t : string) (w : world),
    valid_ident t = true ->
    tables w !! t = None ->
    on_call (faults w) = None ->
    (forall s, Create (store t) s w = (Some (Storage undefined_table), w)) /\
    (forall i, FetchByID ParseIP (store t) i w
               = ((zeroSession, false, Some (Storage undefined_table)), w)) /\
    (forall key, FetchByUserKey ParseIP (store t) key w
                 = (([], Some (Storage undefined_table)), w)) /\
    (forall i, DeleteByID (store t) i w = (Some (Storage undefined_table), w)) /\
    (forall key expID,
        DeleteByUserKey (store t) key expID w = (Some (Storage undefined_table), w)) /\
    deleteExpired (store t) w = (Some (Storage undefined_table), w).
Proof.
  intros t w Hv Ht Hf.
  split; [|split; [|split; [|split; [|split]]]].
  - intros s. rewrite Create_classifies. unfold insert_call. simpl. unfold pg_Exec.
    rewrite (call_parsed _ _ _ _ Hf (parse_insert_query t Hv)).
    simpl. unfold with_table. rewrite Ht. simpl. destruct t; reflexivity.
  - intros i. unfold FetchByID, QueryRowScan. simpl. unfold pg_Query.
    rewrite (call_parsed _ _ _ _ Hf (parse_select_id t Hv)).
    simpl. unfold with_table. rewrite Ht. reflexivity.
  - intros key. rewrite FetchByUserKey_unfold. unfold select_user_key_call.
    simpl. unfold pg_Query.
    rewrite (call_parsed _ _ _ _ Hf (parse_select_user_key t Hv)).
    simpl. unfold with_table. rewrite Ht. reflexivity.
  - intros i. unfold DeleteByID. simpl. unfold pg_Exec.
    rewrite (call_parsed _ _ _ _ Hf (parse_delete_id t Hv)).
    simpl. unfold with_table. rewrite Ht. reflexivity.
  - intros key expID. unfold DeleteByUserKey.
    destruct expID as [|x l]; simpl; unfold pg_Exec.
    + rewrite (call_parsed _ _ _ _ Hf (parse_delete_all t Hv)).
      simpl. unfold with_table. rewrite Ht. reflexivity.
    + rewrite (call_parsed _ _ _ _ Hf (parse_delete_except t Hv)).
      simpl. unfold with_table. rewrite Ht. reflexivity.
  - unfold deleteExpired. simpl. unfold pg_Exec.
    rewrite (call_parsed _ _ _ _ Hf (parse_delete_expired t Hv)).
    simpl. unfold with_table. rewrite Ht. reflexivity.
Qed.

End MissingTable.

Lemma missing_table_is_an_error_witness :
  FetchByID no_ParseIP (store "sessions") "id1" empty_world
  = ((zeroSession, false, Some (Storage pg.undefined_table)), empty_world) /\
  Create (store "sessions") bare_session empty_world
  = (Some (Storage pg.undefined_table), empty_world).
Proof.
  destruct (missing_table_is_an_error no_ParseIP "sessions" empty_world eq_refl eq_refl
              eq_refl) as (Hc & Hf & _).
  split; [apply Hf | apply Hc].
Defined.
